(** * Preflight checks of kubeadm (openyurt): orchestration and selected probes

    Shallow embedding of
    [pkg/util/kubernetes/kubeadm/app/preflight/checks.go].

    Conventions of the embedding.
    - Go [string] and [[]byte] are [string] (sequences of bytes).
    - A Go [error] value is never nil inside a [[]error]; the nil [error]
      returned by a function is [None].
    - The environment the checks probe (init system, file system, container
      runtime) is an explicit [World] threaded through every [Check].
    - [io.Writer] is the list of chunks written so far, oldest first;
      [bytes.Buffer] is the string accumulated so far. *)

From Stdlib Require Import Strings.String Strings.Ascii NArith ZArith Lia.
From Stdlib Require Import Numbers.DecimalString Numbers.DecimalFacts Numbers.DecimalN
  Numbers.DecimalPos.
From stdpp Require Import base gmap strings list.

Local Open Scope list_scope.

(** ** Text helpers standing for [fmt] and [strings] *)

Definition TAB : string := String "009"%char EmptyString.
Definition NL : string := String "010"%char EmptyString.
Definition DQUOTE : string := String "034"%char EmptyString.
Definition BACKSLASH : string := String "092"%char EmptyString.

(** [strings.ToLower], byte-wise: 'A'..'Z' are mapped to 'a'..'z'.  Bytes
    outside the ASCII range are left as they are: the Unicode case mapping
    of non-ASCII text is outside this model. *)
Definition isUpper (c : ascii) : bool :=
  (65 <=? nat_of_ascii c)%nat && (nat_of_ascii c <=? 90)%nat.

Definition toLowerByte (c : ascii) : ascii :=
  if isUpper c then ascii_of_nat (nat_of_ascii c + 32) else c.

Fixpoint strings_ToLower (s : string) : string :=
  match s with
  | EmptyString => EmptyString
  | String c s' => String (toLowerByte c) (strings_ToLower s')
  end.

Fixpoint hasUpper (s : string) : bool :=
  match s with
  | EmptyString => false
  | String c s' => isUpper c || hasUpper s'
  end.

(** 'a'..'z' and '0'..'9' *)
Definition isLower (c : ascii) : bool :=
  (97 <=? nat_of_ascii c)%nat && (nat_of_ascii c <=? 122)%nat.

Definition isDigit (c : ascii) : bool :=
  (48 <=? nat_of_ascii c)%nat && (nat_of_ascii c <=? 57)%nat.

(** [strings.Title] on ASCII text: the first letter of every word is put in
    upper case; letters, digits and the underscore do not separate words. *)
Definition isSeparator (c : ascii) : bool :=
  if (nat_of_ascii c <=? 127)%nat
  then negb (isDigit c || isLower c || isUpper c || (nat_of_ascii c =? 95)%nat)
  else false.

Definition toTitleByte (c : ascii) : ascii :=
  if isLower c then ascii_of_nat (nat_of_ascii c - 32) else c.

Fixpoint strings_Title_from (prev : ascii) (s : string) : string :=
  match s with
  | EmptyString => EmptyString
  | String c s' =>
      String (if isSeparator prev then toTitleByte c else c) (strings_Title_from c s')
  end.

Definition strings_Title (s : string) : string := strings_Title_from " "%char s.

(** [strings.HasPrefix s prefix] *)
Definition strings_HasPrefix (s pre : string) : bool := String.prefix pre s.

(** [strings.Replace s old new -1] for one-byte [old] and [new]. *)
Fixpoint strings_ReplaceByte (s : string) (old new : ascii) : string :=
  match s with
  | EmptyString => EmptyString
  | String c s' =>
      String (if Ascii.eqb c old then new else c) (strings_ReplaceByte s' old new)
  end.

(** [%d] of an unsigned and of a signed integer. *)
Definition fmt_d (n : N) : string := NilZero.string_of_uint (N.to_uint n).
Definition fmt_dZ (z : Z) : string := NilZero.string_of_int (Z.to_int z).

(** The bytes other than [sep]. *)
Definition notByte (sep : ascii) (c : ascii) : bool := negb (Ascii.eqb c sep).

(** [strings.Join] *)
Fixpoint strings_Join (l : list string) (sep : string) : string :=
  match l with
  | [] => EmptyString
  | [x] => x
  | x :: l' => x +:+ sep +:+ strings_Join l' sep
  end.

(** [%q] ([strconv.Quote]) on ASCII text: the double quote and the backslash
    are escaped, the usual control characters get their letter escapes, the
    other control bytes a [\x] escape; bytes from 0x80 on are kept. *)
Definition hexDigit (n : nat) : ascii :=
  if (n <? 10)%nat then ascii_of_nat (48 + n) else ascii_of_nat (87 + n).

Definition quoteByte (c : ascii) : string :=
  let n := nat_of_ascii c in
  if (n =? 34)%nat then BACKSLASH +:+ DQUOTE
  else if (n =? 92)%nat then BACKSLASH +:+ BACKSLASH
  else if (n =? 7)%nat then BACKSLASH +:+ "a"
  else if (n =? 8)%nat then BACKSLASH +:+ "b"
  else if (n =? 12)%nat then BACKSLASH +:+ "f"
  else if (n =? 10)%nat then BACKSLASH +:+ "n"
  else if (n =? 13)%nat then BACKSLASH +:+ "r"
  else if (n =? 9)%nat then BACKSLASH +:+ "t"
  else if (n =? 11)%nat then BACKSLASH +:+ "v"
  else if (n <? 32)%nat || (n =? 127)%nat then
    BACKSLASH +:+ "x" +:+ String (hexDigit (n / 16)) (String (hexDigit (n mod 16)) EmptyString)
  else String c EmptyString.

Fixpoint quoteBody (s : string) : string :=
  match s with
  | EmptyString => EmptyString
  | String c s' => quoteByte c +:+ quoteBody s'
  end.

Definition fmt_q (s : string) : string := DQUOTE +:+ quoteBody s +:+ DQUOTE.

(** ** Errors *)

(** A non-nil Go [error]: built by [errors.New]/[errors.Errorf] from a
    message, or by [errors.Wrap]/[errors.Wrapf] around a cause. *)
Inductive error : Type :=
| errors_New (msg : string)
| errors_Wrap (cause : error) (msg : string).

(** The [Error()] method of the interface; [%v] of an error prints it. *)
Fixpoint error_Error (e : error) : string :=
  match e with
  | errors_New msg => msg
  | errors_Wrap cause msg => msg +:+ ": " +:+ error_Error cause
  end.

(** [type Error struct { Msg string }] *)
Record Error : Type := mkError { Msg : string }.

Definition preflightHint : string :=
  "[preflight] If you know what you are doing, you can make a check non-fatal with `--ignore-preflight-errors=...`".

(** [func (e *Error) Error() string] *)
Definition Error_Error (e : Error) : string :=
  "[preflight] Some fatal errors occurred:" +:+ NL +:+ Msg e +:+ preflightHint.

(** [func (e *Error) Preflight() bool] *)
Definition Error_Preflight (e : Error) : bool := true.

(** ** The probed environment *)

(** [initsystem.InitSystem] *)
Record InitSystem : Type := {
  EnableCommand : string -> string;
  ServiceExists : string -> bool;
  ServiceIsEnabled : string -> bool;
  ServiceIsActive : string -> bool
}.

(** An opened [*os.File] as a reader: the bytes it delivers before it ends,
    and the error (if any) a read past them reports instead of [io.EOF]. *)
Record File : Type := {
  fileData : string;
  fileReadErr : option error
}.

(** Calls received by the container runtime, in the order they were made. *)
Inductive RuntimeCall : Type :=
| CallIsRunning
| CallImageExists (image : string)
| CallPullImage (image : string).

(** [utilruntime.ContainerRuntime]: what each method answers may depend on
    the calls made before (pulling an image changes the local cache). *)
Record ContainerRuntime : Type := {
  rtIsRunning : list RuntimeCall -> option error;
  rtImageExists : list RuntimeCall -> string -> bool * option error;
  rtPullImage : list RuntimeCall -> string -> option error
}.

(** A [net.Listener] as far as the checks use it: what [Close] returns. *)
Record Listener : Type := {
  ln_Close : option error
}.

Record World : Type := {
  initsystem_GetInitSystem : InitSystem + error;
  os_Open : string -> File + error;
  net_Listen : Z -> option Listener * option error;
  runtimeCalls : list RuntimeCall
}.

Definition recordCall (w : World) (c : RuntimeCall) : World :=
  {| initsystem_GetInitSystem := initsystem_GetInitSystem w;
     os_Open := os_Open w;
     net_Listen := net_Listen w;
     runtimeCalls := runtimeCalls w ++ [c] |}.

Definition IsRunning (rt : ContainerRuntime) (w : World) : option error * World :=
  (rtIsRunning rt (runtimeCalls w), recordCall w CallIsRunning).

Definition ImageExists (rt : ContainerRuntime) (image : string) (w : World)
  : (bool * option error) * World :=
  (rtImageExists rt (runtimeCalls w) image, recordCall w (CallImageExists image)).

Definition PullImage (rt : ContainerRuntime) (image : string) (w : World)
  : option error * World :=
  (rtPullImage rt (runtimeCalls w) image, recordCall w (CallPullImage image)).

(** ** The [Checker] interface *)

Class Checker (C : Type) : Type := {
  Check : C -> World -> (list error * list error) * World;
  Name : C -> string
}.

(** A value of interface type [Checker]: some struct with its methods. *)
Inductive CheckerV : Type :=
| checker {C : Type} {M : Checker C} (c : C).

Definition cName (c : CheckerV) : string :=
  match c with checker c' => Name c' end.

Definition cCheck (c : CheckerV) (w : World) : (list error * list error) * World :=
  match c with checker c' => Check c' w end.

(** ** [setHasItemOrAll] and [RunChecks] *)

(** [sets.String] is a finite set of strings. *)
Definition setHasItemOrAll (s : gset string) (item : string) : bool :=
  if bool_decide ("all" ∈ s) || bool_decide (strings_ToLower item ∈ s)
  then true
  else false.

Definition warningLine (name : string) (w : error) : string :=
  TAB +:+ "[WARNING " +:+ name +:+ "]: " +:+ error_Error w +:+ NL.

Definition errorLine (name : string) (i : error) : string :=
  TAB +:+ "[ERROR " +:+ name +:+ "]: " +:+ error_Error i +:+ NL.

(** State of the loop of [RunChecks]: the writer [ww], [errsBuffer] and the
    environment. *)
Record RunState : Type := {
  ww : list string;
  errsBuffer : string;
  world : World
}.

(** The [if setHasItemOrAll(...)] block of the loop: the severity of the
    errors of an ignored check is decreased to warnings. *)
Definition decreaseSeverity (ignorePreflightErrors : gset string) (name : string)
    (warnings errs : list error) : list error * list error :=
  if setHasItemOrAll ignorePreflightErrors name
  then (warnings ++ errs, [])
  else (warnings, errs).

(** One iteration of [for _, c := range checks]. *)
Definition RunChecks_body (ignorePreflightErrors : gset string)
    (st : RunState) (c : CheckerV) : RunState :=
  let name := cName c in
  let '((warnings, errs), w') := cCheck c (world st) in
  let '(warnings, errs) := decreaseSeverity ignorePreflightErrors name warnings errs in
  let ww' := fold_left (fun out w => out ++ [warningLine name w]) warnings (ww st) in
  let buf' := fold_left (fun buf i => buf +:+ errorLine name i) errs (errsBuffer st) in
  {| ww := ww'; errsBuffer := buf'; world := w' |}.

Definition RunChecks_loop (checks : list CheckerV) (ignorePreflightErrors : gset string)
    (st : RunState) : RunState :=
  fold_left (RunChecks_body ignorePreflightErrors) checks st.

(** [RunChecks]: the returned error, with the writer and the environment
    as the run leaves them. *)
Definition RunChecks (checks : list CheckerV) (ww0 : list string)
    (ignorePreflightErrors : gset string) (w : World)
  : option Error * list string * World :=
  let st := RunChecks_loop checks ignorePreflightErrors
              {| ww := ww0; errsBuffer := EmptyString; world := w |} in
  if (0 <? String.length (errsBuffer st))%nat
  then (Some (mkError (errsBuffer st)), ww st, world st)
  else (None, ww st, world st).

(** ** Individual checks *)

(** *** [ContainerRuntimeCheck] *)

Record ContainerRuntimeCheck : Type := {
  crc_runtime : ContainerRuntime
}.

Definition ContainerRuntimeCheck_Name (crc : ContainerRuntimeCheck) : string := "CRI".

Definition ContainerRuntimeCheck_Check (crc : ContainerRuntimeCheck) (w : World)
  : (list error * list error) * World :=
  let '(err, w') := IsRunning (crc_runtime crc) w in
  match err with
  | Some e => (([], [e]), w')
  | None => (([], []), w')
  end.

#[export] Instance ContainerRuntimeCheck_Checker : Checker ContainerRuntimeCheck :=
  {| Check := ContainerRuntimeCheck_Check; Name := ContainerRuntimeCheck_Name |}.

(** *** [ServiceCheck] *)

Record ServiceCheck : Type := {
  Service : string;
  CheckIfActive : bool;
  sc_Label : string
}.

Definition ServiceCheck_Name (sc : ServiceCheck) : string :=
  if negb (String.eqb (sc_Label sc) "") then sc_Label sc
  else "Service-" +:+ strings_Title (Service sc).

Definition ServiceCheck_Check (sc : ServiceCheck) (w : World)
  : (list error * list error) * World :=
  match initsystem_GetInitSystem w with
  | inr err => (([err], []), w)
  | inl initSystem =>
      if negb (ServiceExists initSystem (Service sc)) then
        (([errors_New (Service sc +:+ " service does not exist")], []), w)
      else
        let warnings :=
          if negb (ServiceIsEnabled initSystem (Service sc)) then
            [errors_New (Service sc +:+ " service is not enabled, please run '"
                         +:+ EnableCommand initSystem (Service sc) +:+ "'")]
          else [] in
        let errorList :=
          if CheckIfActive sc && negb (ServiceIsActive initSystem (Service sc)) then
            [errors_New (Service sc +:+ " service is not active, please run 'systemctl start "
                         +:+ Service sc +:+ ".service'")]
          else [] in
        ((warnings, errorList), w)
  end.

#[export] Instance ServiceCheck_Checker : Checker ServiceCheck :=
  {| Check := ServiceCheck_Check; Name := ServiceCheck_Name |}.

(** *** [FirewalldCheck] *)

Record FirewalldCheck : Type := {
  ports : list Z
}.

Definition FirewalldCheck_Name (fc : FirewalldCheck) : string := "Firewalld".

(** [%v] of a [[]int] *)
Definition fmt_v_ints (l : list Z) : string :=
  "[" +:+ strings_Join (map fmt_dZ l) " " +:+ "]".

Definition FirewalldCheck_Check (fc : FirewalldCheck) (w : World)
  : (list error * list error) * World :=
  match initsystem_GetInitSystem w with
  | inr err => (([err], []), w)
  | inl initSystem =>
      if negb (ServiceExists initSystem "firewalld") then (([], []), w)
      else if ServiceIsActive initSystem "firewalld" then
        (([errors_New ("firewalld is active, please ensure ports " +:+ fmt_v_ints (ports fc)
                       +:+ " are open or your cluster may not function correctly")], []), w)
      else (([], []), w)
  end.

#[export] Instance FirewalldCheck_Checker : Checker FirewalldCheck :=
  {| Check := FirewalldCheck_Check; Name := FirewalldCheck_Name |}.

(** *** [PortOpenCheck] *)

Record PortOpenCheck : Type := {
  port : Z;
  label : string
}.

Definition PortOpenCheck_Name (poc : PortOpenCheck) : string :=
  if negb (String.eqb (label poc) "") then label poc
  else "Port-" +:+ fmt_dZ (port poc).

Definition PortOpenCheck_Check (poc : PortOpenCheck) (w : World)
  : (list error * list error) * World :=
  let '(ln, err) := net_Listen w (port poc) in
  let errorList :=
    match err with
    | Some _ => [errors_New ("Port " +:+ fmt_dZ (port poc) +:+ " is in use")]
    | None => []
    end in
  let warnings :=
    match ln with
    | Some l =>
        match ln_Close l with
        | Some err' =>
            [errors_New ("when closing port " +:+ fmt_dZ (port poc) +:+ ", encountered "
                         +:+ error_Error err')]
        | None => []
        end
    | None => []
    end in
  ((warnings, errorList), w).

#[export] Instance PortOpenCheck_Checker : Checker PortOpenCheck :=
  {| Check := PortOpenCheck_Check; Name := PortOpenCheck_Name |}.

(** *** [FileContentCheck] *)

Record FileContentCheck : Type := {
  fcc_Path : string;
  Content : string;
  fcc_Label : string
}.

Definition FileContentCheck_Name (fcc : FileContentCheck) : string :=
  if negb (String.eqb (fcc_Label fcc) "") then fcc_Label fcc
  else "FileContent-" +:+ strings_ReplaceByte (fcc_Path fcc) "/"%char "-"%char.

(** [io.Copy(buf, io.LimitReader(f, n))]: the limited reader stops after [n]
    bytes without asking the file for more, so an error of the file is seen
    only when fewer than [n] bytes come before it. *)
Definition io_Copy_LimitReader (f : File) (n : nat) : string * option error :=
  if (n <=? String.length (fileData f))%nat
  then (String.substring 0 n (fileData f), None)
  else (fileData f, fileReadErr f).

(** [bytes.Equal] *)
Definition bytes_Equal (a b : string) : bool := String.eqb a b.

Definition FileContentCheck_Check (fcc : FileContentCheck) (w : World)
  : (list error * list error) * World :=
  match os_Open w (fcc_Path fcc) with
  | inr _ => (([], [errors_New (fcc_Path fcc +:+ " does not exist")]), w)
  | inl f =>
      let '(buf, err) := io_Copy_LimitReader f (String.length (Content fcc)) in
      match err with
      | Some _ => (([], [errors_New (fcc_Path fcc +:+ " could not be read")]), w)
      | None =>
          if negb (bytes_Equal buf (Content fcc)) then
            (([], [errors_New (fcc_Path fcc +:+ " contents are not set to " +:+ Content fcc)]), w)
          else (([], []), w)
      end
  end.

#[export] Instance FileContentCheck_Checker : Checker FileContentCheck :=
  {| Check := FileContentCheck_Check; Name := FileContentCheck_Name |}.

(** *** [ImagePullCheck] *)

(** [v1.PullPolicy] is a string type with three named values. *)
Definition v1_PullAlways : string := "Always".
Definition v1_PullNever : string := "Never".
Definition v1_PullIfNotPresent : string := "IfNotPresent".

Record ImagePullCheck : Type := {
  ipc_runtime : ContainerRuntime;
  imageList : list string;
  imagePullPolicy : string
}.

Definition ImagePullCheck_Name (ipc : ImagePullCheck) : string := "ImagePull".

(** [errors.Wrapf(err, ...)] appended to [errorList] when [err != nil]. *)
Definition appendWrapped (errorList : list error) (err : option error) (msg : string)
  : list error :=
  match err with
  | Some e => errorList ++ [errors_Wrap e msg]
  | None => errorList
  end.

(** The body of [case v1.PullAlways], also reached by [fallthrough]. *)
Definition pullCase (rt : ContainerRuntime) (image : string)
    (errorList : list error) (w : World) : list error * World :=
  let '(err, w') := PullImage rt image w in
  (appendWrapped errorList err ("failed to pull image " +:+ image), w').

(** [for _, image := range ipc.imageList { switch policy ... }] *)
Fixpoint ImagePullCheck_loop (rt : ContainerRuntime) (policy : string)
    (images : list string) (errorList : list error) (w : World)
  : (list error * list error) * World :=
  match images with
  | [] => (([], errorList), w)
  | image :: rest =>
      if String.eqb policy v1_PullNever then
        ImagePullCheck_loop rt policy rest errorList w
      else if String.eqb policy v1_PullIfNotPresent then
        let '((ret, err), w1) := ImageExists rt image w in
        if ret && (if err is None then true else false) then
          ImagePullCheck_loop rt policy rest errorList w1
        else
          let errorList1 :=
            appendWrapped errorList err ("failed to check if image " +:+ image +:+ " exists") in
          let '(errorList2, w2) := pullCase rt image errorList1 w1 in
          ImagePullCheck_loop rt policy rest errorList2 w2
      else if String.eqb policy v1_PullAlways then
        let '(errorList1, w1) := pullCase rt image errorList w in
        ImagePullCheck_loop rt policy rest errorList1 w1
      else
        (([], errorList ++ [errors_New ("unsupported pull policy " +:+ fmt_q policy)]), w)
  end.

Definition ImagePullCheck_Check (ipc : ImagePullCheck) (w : World)
  : (list error * list error) * World :=
  ImagePullCheck_loop (ipc_runtime ipc) (imagePullPolicy ipc) (imageList ipc) [] w.

#[export] Instance ImagePullCheck_Checker : Checker ImagePullCheck :=
  {| Check := ImagePullCheck_Check; Name := ImagePullCheck_Name |}.

(** ** Semantic versions *)

(** Modelled from the spec: the semantic-version parser and its ordering
    ([k8s.io/apimachinery/pkg/util/version], imported as [versionutil]) are
    collaborators outside this package.  They are modelled after Semantic
    Versioning 2.0.0, on which the comments of [KubernetesVersionCheck.Check]
    rely: three numeric components, an optional pre-release of dot-separated
    identifiers, optional build metadata; numeric identifiers are below
    non-numeric ones and a pre-release is below its release. *)
Module versionutil.

Inductive PreIdent : Type :=
| PreNum (n : N)
| PreAlnum (s : string).

Record Version : Type := {
  Major : N;
  Minor : N;
  Patch : N;
  preRelease : list PreIdent;
  buildMetadata : string
}.

(** Go's [uint] on the 64-bit platforms kubeadm runs on. *)
Definition uintMod : N := 2 ^ 64.

(** [strconv.ParseUint(s, 10, 0)] without the error text. *)
Definition ParseUint (s : string) : option N :=
  match NilZero.uint_of_string s with
  | Some d => let n := N.of_uint d in if (n <? uintMod)%N then Some n else None
  | None => None
  end.

(** Split at the first occurrence of a byte. *)
Fixpoint cutByte (sep : ascii) (s : string) : string * option string :=
  match s with
  | EmptyString => (EmptyString, None)
  | String c s' =>
      if Ascii.eqb c sep then (EmptyString, Some s')
      else let '(a, b) := cutByte sep s' in (String c a, b)
  end.

(** [strings.Split] for a one-byte separator. *)
Fixpoint splitByte (sep : ascii) (s : string) : list string :=
  match s with
  | EmptyString => [EmptyString]
  | String c s' =>
      if Ascii.eqb c sep then EmptyString :: splitByte sep s'
      else match splitByte sep s' with
           | x :: l => String c x :: l
           | [] => [String c EmptyString]
           end
  end.

Fixpoint allBytes (p : ascii -> bool) (s : string) : bool :=
  match s with
  | EmptyString => true
  | String c s' => p c && allBytes p s'
  end.

Definition zeroPrefixed (comp : string) : bool :=
  strings_HasPrefix comp "0" && negb (String.eqb comp "0").

Definition isIdentByte (c : ascii) : bool :=
  isDigit c || isLower c || isUpper c || Ascii.eqb c "-".

Definition validIdent (s : string) : bool :=
  negb (String.eqb s "") && allBytes isIdentByte s.

Definition parseComponent (str comp : string) : N + error :=
  if negb (negb (String.eqb comp "") && allBytes isDigit comp) then
    inr (errors_New ("could not parse " +:+ fmt_q str +:+ " as version"))
  else if zeroPrefixed comp then
    inr (errors_New ("illegal zero-prefixed version component " +:+ fmt_q comp
                     +:+ " in " +:+ fmt_q str))
  else match ParseUint comp with
       | Some n => inl n
       | None =>
           inr (errors_New ("illegal non-numeric version component " +:+ fmt_q comp
                            +:+ " in " +:+ fmt_q str))
       end.

Fixpoint parsePreRelease (str : string) (comps : list string)
  : list PreIdent + error :=
  match comps with
  | [] => inl []
  | comp :: rest =>
      if negb (validIdent comp) then
        inr (errors_New ("could not parse pre-release/metadata in version " +:+ fmt_q str))
      else
        match ParseUint comp with
        | Some n =>
            if zeroPrefixed comp then
              inr (errors_New ("illegal zero-prefixed version component " +:+ fmt_q comp
                               +:+ " in " +:+ fmt_q str))
            else match parsePreRelease str rest with
                 | inl l => inl (PreNum n :: l)
                 | inr e => inr e
                 end
        | None =>
            match parsePreRelease str rest with
            | inl l => inl (PreAlnum comp :: l)
            | inr e => inr e
            end
        end
  end.

(** The optional leading [v] of a version text. *)
Definition trimLeadingV (str : string) : string :=
  match str with
  | String "v"%char s' => s'
  | _ => str
  end.

Definition ParseSemantic (str : string) : Version + error :=
  let s := trimLeadingV str in
  let '(s1, build) := cutByte "+" s in
  let '(numbers, pre) := cutByte "-" s1 in
  match splitByte "." numbers with
  | [c0; c1; c2] =>
      match parseComponent str c0, parseComponent str c1, parseComponent str c2 with
      | inl major, inl minor, inl patch =>
          let preIds :=
            match pre with
            | None => inl []
            | Some p => parsePreRelease str (splitByte "." p)
            end in
          let buildOk :=
            match build with
            | None => true
            | Some b => forallb validIdent (splitByte "." b)
            end in
          match preIds with
          | inr e => inr e
          | inl ids =>
              if buildOk then
                inl {| Major := major; Minor := minor; Patch := patch;
                       preRelease := ids;
                       buildMetadata := default EmptyString build |}
              else
                inr (errors_New ("could not parse pre-release/metadata in version "
                                 +:+ fmt_q str))
          end
      | inr e, _, _ => inr e
      | _, inr e, _ => inr e
      | _, _, inr e => inr e
      end
  | _ :: _ :: _ :: _ :: _ =>
      inr (errors_New ("illegal version string " +:+ fmt_q str))
  | l =>
      if forallb (fun c => negb (String.eqb c "") && allBytes isDigit c) l
      then inr (errors_New ("illegal version string " +:+ fmt_q str))
      else inr (errors_New ("could not parse " +:+ fmt_q str +:+ " as version"))
  end.

Definition PreIdent_String (i : PreIdent) : string :=
  match i with
  | PreNum n => fmt_d n
  | PreAlnum s => s
  end.

(** [func (v *Version) String() string] *)
Definition Version_String (v : Version) : string :=
  fmt_d (Major v) +:+ "." +:+ fmt_d (Minor v) +:+ "." +:+ fmt_d (Patch v)
  +:+ (if preRelease v is [] then EmptyString
       else "-" +:+ strings_Join (map PreIdent_String (preRelease v)) ".")
  +:+ (if String.eqb (buildMetadata v) "" then EmptyString
       else "+" +:+ buildMetadata v).

Definition comparePreIdent (a b : PreIdent) : comparison :=
  match a, b with
  | PreNum x, PreNum y => (x ?= y)%N
  | PreNum _, PreAlnum _ => Lt
  | PreAlnum _, PreNum _ => Gt
  | PreAlnum x, PreAlnum y => String.compare x y
  end.

Fixpoint comparePreIdents (a b : list PreIdent) : comparison :=
  match a, b with
  | [], [] => Eq
  | [], _ :: _ => Lt
  | _ :: _, [] => Gt
  | x :: a', y :: b' =>
      match comparePreIdent x y with
      | Eq => comparePreIdents a' b'
      | c => c
      end
  end.

(** Precedence of two semantic versions; build metadata is ignored. *)
Definition compareInternal (v other : Version) : comparison :=
  match (Major v ?= Major other)%N with
  | Eq =>
      match (Minor v ?= Minor other)%N with
      | Eq =>
          match (Patch v ?= Patch other)%N with
          | Eq =>
              match preRelease v, preRelease other with
              | [], [] => Eq
              | [], _ :: _ => Gt
              | _ :: _, [] => Lt
              | a, b => comparePreIdents a b
              end
          | c => c
          end
      | c => c
      end
  | c => c
  end.

(** [func (v *Version) AtLeast(min *Version) bool] *)
Definition AtLeast (v min : Version) : bool :=
  if compareInternal v min is Lt then false else true.

(** [func (v *Version) LessThan(other *Version) bool] *)
Definition LessThan (v other : Version) : bool :=
  if compareInternal v other is Lt then true else false.

(** [MustParseSemantic] panics when the text does not parse; its one
    caller builds a text that always parses (see
    [firstUnsupportedVersion_parses]), so the value standing for the
    panic is never produced there. *)
Definition MustParseSemantic (str : string) : Version :=
  match ParseSemantic str with
  | inl v => v
  | inr _ => {| Major := 0; Minor := 0; Patch := 0; preRelease := [];
                buildMetadata := EmptyString |}
  end.

End versionutil.

(** *** [KubernetesVersionCheck] *)

Record KubernetesVersionCheck : Type := {
  KubeadmVersion : string;
  KubernetesVersion : string
}.

Definition KubernetesVersionCheck_Name (kubever : KubernetesVersionCheck) : string :=
  "KubernetesVersion".

(** The text handed to [MustParseSemantic]; [Minor()+1] is a [uint] sum. *)
Definition firstUnsupportedVersionText (kadmVersion : versionutil.Version) : string :=
  fmt_d (versionutil.Major kadmVersion) +:+ "."
  +:+ fmt_d ((versionutil.Minor kadmVersion + 1) mod versionutil.uintMod)%N +:+ "."
  +:+ "0-0".

Definition KubernetesVersionCheck_Check (kubever : KubernetesVersionCheck) (w : World)
  : (list error * list error) * World :=
  if strings_HasPrefix (KubeadmVersion kubever) "v0.0.0" then (([], []), w)
  else
    match versionutil.ParseSemantic (KubeadmVersion kubever) with
    | inr err =>
        (([], [errors_Wrap err ("couldn't parse kubeadm version "
                                +:+ fmt_q (KubeadmVersion kubever))]), w)
    | inl kadmVersion =>
        match versionutil.ParseSemantic (KubernetesVersion kubever) with
        | inr err =>
            (([], [errors_Wrap err ("couldn't parse Kubernetes version "
                                    +:+ fmt_q (KubernetesVersion kubever))]), w)
        | inl k8sVersion =>
            let firstUnsupportedVersion :=
              versionutil.MustParseSemantic (firstUnsupportedVersionText kadmVersion) in
            if versionutil.AtLeast k8sVersion firstUnsupportedVersion then
              (([errors_New
                   ("Kubernetes version is greater than kubeadm version. Please consider to upgrade kubeadm. Kubernetes version: "
                    +:+ versionutil.Version_String k8sVersion
                    +:+ ". Kubeadm version: " +:+ fmt_d (versionutil.Major kadmVersion)
                    +:+ "." +:+ fmt_d (versionutil.Minor kadmVersion) +:+ ".x")], []), w)
            else (([], []), w)
        end
    end.

#[export] Instance KubernetesVersionCheck_Checker : Checker KubernetesVersionCheck :=
  {| Check := KubernetesVersionCheck_Check; Name := KubernetesVersionCheck_Name |}.



(** ** Further probes of the environment *)

(** What [f.Readdirnames(n)] reports besides the names: no error, [io.EOF]
    or another error. *)
Inductive ReaddirErr : Type :=
| readdirNil
| readdirEOF
| readdirErr (e : error).

(** [utilsexec.Interface] as far as this package calls it. *)
Record utilsexec_Interface : Type := {
  LookPath : string -> string + error
}.

(** The probes of the host, of the standard library and of sibling packages
    that the remaining checks call; each may observe the environment. *)
Record HostProbes : Type := {
  (** the error of [os.Stat] *)
  os_Stat : World -> string -> option error;
  os_IsNotExist : error -> bool;
  (** [f.Readdirnames(n)] for the file [f] opened at a path *)
  Readdirnames : World -> string -> File -> nat -> list string * ReaddirErr;
  (** [net.LookupHost]: the address slice ([None] when nil) and the error *)
  net_LookupHost : World -> string -> option (list string) * option error;
  validation_IsQualifiedName : string -> list string;
  runtime_NumCPU : World -> Z;
  runtime_GOOS : string;
  (** [Validate(system.DefaultSysSpec)] of the four system validators:
      warnings, then errors *)
  KernelValidator_Validate : World -> list error * list error;
  DockerValidator_Validate : World -> list error * list error;
  OSValidator_Validate : World -> list error * list error;
  CgroupsValidator_Validate : World -> list error * list error;
  (** [GetKubeletVersion] of this package and the constant
      [kubeadmconstants.MinimumKubeletVersion] *)
  GetKubeletVersion : utilsexec_Interface -> World -> versionutil.Version + error;
  MinimumKubeletVersion : versionutil.Version;
  (** [IsPrivilegedUserCheck.Check], defined per platform *)
  IsPrivilegedUserCheck_Check : World -> (list error * list error) * World
}.

(** ** Further checks *)

(** *** [IsPrivilegedUserCheck] *)

Inductive IsPrivilegedUserCheck : Type := mkIsPrivilegedUserCheck.

Definition IsPrivilegedUserCheck_Name (c : IsPrivilegedUserCheck) : string :=
  "IsPrivilegedUser".

#[export] Instance IsPrivilegedUserCheck_Checker (h : HostProbes)
  : Checker IsPrivilegedUserCheck :=
  {| Check := fun _ => IsPrivilegedUserCheck_Check h; Name := IsPrivilegedUserCheck_Name |}.

(** *** [DirAvailableCheck] *)

Record DirAvailableCheck : Type := {
  dac_Path : string;
  dac_Label : string
}.

Definition DirAvailableCheck_Name (dac : DirAvailableCheck) : string :=
  if negb (String.eqb (dac_Label dac) "") then dac_Label dac
  else "DirAvailable-" +:+ strings_ReplaceByte (dac_Path dac) "/"%char "-"%char.

Definition DirAvailableCheck_Check (h : HostProbes) (dac : DirAvailableCheck) (w : World)
  : (list error * list error) * World :=
  if (if os_Stat h w (dac_Path dac) is Some err then os_IsNotExist h err else false)
  then (([], []), w)
  else
    match os_Open w (dac_Path dac) with
    | inr err =>
        (([], [errors_Wrap err ("unable to check if " +:+ dac_Path dac +:+ " is empty")]), w)
    | inl f =>
        match (Readdirnames h w (dac_Path dac) f 1).2 with
        | readdirEOF => (([], []), w)
        | _ => (([], [errors_New (dac_Path dac +:+ " is not empty")]), w)
        end
    end.

#[export] Instance DirAvailableCheck_Checker (h : HostProbes) : Checker DirAvailableCheck :=
  {| Check := DirAvailableCheck_Check h; Name := DirAvailableCheck_Name |}.

(** *** [FileAvailableCheck] *)

Record FileAvailableCheck : Type := {
  fac_Path : string;
  fac_Label : string
}.

Definition FileAvailableCheck_Name (fac : FileAvailableCheck) : string :=
  if negb (String.eqb (fac_Label fac) "") then fac_Label fac
  else "FileAvailable-" +:+ strings_ReplaceByte (fac_Path fac) "/"%char "-"%char.

Definition FileAvailableCheck_Check (h : HostProbes) (fac : FileAvailableCheck) (w : World)
  : (list error * list error) * World :=
  match os_Stat h w (fac_Path fac) with
  | None => (([], [errors_New (fac_Path fac +:+ " already exists")]), w)
  | Some _ => (([], []), w)
  end.

#[export] Instance FileAvailableCheck_Checker (h : HostProbes) : Checker FileAvailableCheck :=
  {| Check := FileAvailableCheck_Check h; Name := FileAvailableCheck_Name |}.

(** *** [FileExistingCheck] *)

Record FileExistingCheck : Type := {
  fec_Path : string;
  fec_Label : string
}.

Definition FileExistingCheck_Name (fac : FileExistingCheck) : string :=
  if negb (String.eqb (fec_Label fac) "") then fec_Label fac
  else "FileExisting-" +:+ strings_ReplaceByte (fec_Path fac) "/"%char "-"%char.

Definition FileExistingCheck_Check (h : HostProbes) (fac : FileExistingCheck) (w : World)
  : (list error * list error) * World :=
  match os_Stat h w (fec_Path fac) with
  | Some _ => (([], [errors_New (fec_Path fac +:+ " doesn't exist")]), w)
  | None => (([], []), w)
  end.

#[export] Instance FileExistingCheck_Checker (h : HostProbes) : Checker FileExistingCheck :=
  {| Check := FileExistingCheck_Check h; Name := FileExistingCheck_Name |}.

(** *** [InPathCheck] *)

Record InPathCheck : Type := {
  executable : string;
  mandatory : bool;
  inpath_exec : utilsexec_Interface;
  inpath_label : string;
  suggestion : string
}.

Definition InPathCheck_Name (ipc : InPathCheck) : string :=
  if negb (String.eqb (inpath_label ipc) "") then inpath_label ipc
  else "FileExisting-" +:+ strings_ReplaceByte (executable ipc) "/"%char "-"%char.

Definition InPathCheck_Check (ipc : InPathCheck) (w : World)
  : (list error * list error) * World :=
  match LookPath (inpath_exec ipc) (executable ipc) with
  | inr _ =>
      if mandatory ipc then
        (([], [errors_New (executable ipc +:+ " not found in system path")]), w)
      else
        let warningMessage := executable ipc +:+ " not found in system path" in
        let warningMessage :=
          if negb (String.eqb (suggestion ipc) "")
          then warningMessage +:+ (NL +:+ "Suggestion: " +:+ suggestion ipc)
          else warningMessage in
        (([errors_New warningMessage], []), w)
  | inl _ => (([], []), w)
  end.

#[export] Instance InPathCheck_Checker : Checker InPathCheck :=
  {| Check := InPathCheck_Check; Name := InPathCheck_Name |}.

(** *** [HostnameCheck] *)

Record HostnameCheck : Type := {
  nodeName : string
}.

Definition HostnameCheck_Name (hc : HostnameCheck) : string := "Hostname".

Definition HostnameCheck_Check (h : HostProbes) (hc : HostnameCheck) (w : World)
  : (list error * list error) * World :=
  let warnings :=
    map (fun msg => errors_New ("invalid node name format " +:+ fmt_q (nodeName hc)
                                +:+ ": " +:+ msg))
        (validation_IsQualifiedName h (nodeName hc)) in
  let '(addr, err) := net_LookupHost h w (nodeName hc) in
  let warnings :=
    if addr is None
    then warnings ++ [errors_New ("hostname " +:+ DQUOTE +:+ nodeName hc +:+ DQUOTE
                                  +:+ " could not be reached")]
    else warnings in
  let warnings :=
    match err with
    | Some e => warnings ++ [errors_Wrap e ("hostname " +:+ DQUOTE +:+ nodeName hc +:+ DQUOTE)]
    | None => warnings
    end in
  ((warnings, []), w).

#[export] Instance HostnameCheck_Checker (h : HostProbes) : Checker HostnameCheck :=
  {| Check := HostnameCheck_Check h; Name := HostnameCheck_Name |}.

(** *** [SystemVerificationCheck] *)

Record SystemVerificationCheck : Type := {
  IsDocker : bool
}.

Definition SystemVerificationCheck_Name (sysver : SystemVerificationCheck) : string :=
  "SystemVerification".

(** [var validators = ...] with the two conditional [append]s. *)
Definition SystemVerificationCheck_validators (h : HostProbes)
    (sysver : SystemVerificationCheck) : list (World -> list error * list error) :=
  [KernelValidator_Validate h]
  ++ (if IsDocker sysver then [DockerValidator_Validate h] else [])
  ++ (if String.eqb (runtime_GOOS h) "linux"
      then [OSValidator_Validate h; CgroupsValidator_Validate h] else []).

(** The findings, and whether the header line and the buffered report of
    the validators are printed to the standard output. *)
Definition SystemVerificationCheck_run (h : HostProbes) (sysver : SystemVerificationCheck)
    (w : World) : (list error * list error) * bool :=
  let '(warns, errs) :=
    fold_left (fun (acc : list error * list error) v =>
                 let '(warn, err) := v w in (acc.1 ++ warn, acc.2 ++ err))
              (SystemVerificationCheck_validators h sysver) ([], []) in
  if negb (length errs =? 0)%nat then ((warns, errs), true)
  else ((warns, []), false).

Definition SystemVerificationCheck_Check (h : HostProbes) (sysver : SystemVerificationCheck)
    (w : World) : (list error * list error) * World :=
  ((SystemVerificationCheck_run h sysver w).1, w).

#[export] Instance SystemVerificationCheck_Checker (h : HostProbes)
  : Checker SystemVerificationCheck :=
  {| Check := SystemVerificationCheck_Check h; Name := SystemVerificationCheck_Name |}.

(** *** [KubeletVersionCheck] *)

Record KubeletVersionCheck : Type := {
  kv_KubernetesVersion : string;
  kv_exec : utilsexec_Interface
}.

Definition KubeletVersionCheck_Name (kubever : KubeletVersionCheck) : string :=
  "KubeletVersion".

Definition KubeletVersionCheck_Check (h : HostProbes) (kubever : KubeletVersionCheck)
    (w : World) : (list error * list error) * World :=
  match GetKubeletVersion h (kv_exec kubever) w with
  | inr err => (([], [errors_Wrap err "couldn't get kubelet version"]), w)
  | inl kubeletVersion =>
      if versionutil.LessThan kubeletVersion (MinimumKubeletVersion h) then
        (([], [errors_New ("Kubelet version "
                           +:+ fmt_q (versionutil.Version_String kubeletVersion)
                           +:+ " is lower than kubeadm can support. Please upgrade kubelet")]),
         w)
      else if negb (String.eqb (kv_KubernetesVersion kubever) "") then
        match versionutil.ParseSemantic (kv_KubernetesVersion kubever) with
        | inr err =>
            (([], [errors_Wrap err ("couldn't parse Kubernetes version "
                                    +:+ fmt_q (kv_KubernetesVersion kubever))]), w)
        | inl k8sVersion =>
            if (versionutil.Major k8sVersion <? versionutil.Major kubeletVersion)%N
               || (versionutil.Minor k8sVersion <? versionutil.Minor kubeletVersion)%N
            then
              (([], [errors_New
                       ("the kubelet version is higher than the control plane version. This is not a supported version skew and may lead to a malfunctional cluster. Kubelet version: "
                        +:+ fmt_q (versionutil.Version_String kubeletVersion)
                        +:+ " Control plane version: "
                        +:+ fmt_q (versionutil.Version_String k8sVersion))]), w)
            else (([], []), w)
        end
      else (([], []), w)
  end.

#[export] Instance KubeletVersionCheck_Checker (h : HostProbes) : Checker KubeletVersionCheck :=
  {| Check := KubeletVersionCheck_Check h; Name := KubeletVersionCheck_Name |}.

(** *** [SwapCheck] *)

Inductive SwapCheck : Type := mkSwapCheck.

Definition SwapCheck_Name (swc : SwapCheck) : string := "Swap".

(** [bufio.MaxScanTokenSize] and [bufio.ErrTooLong] *)
Definition bufio_MaxScanTokenSize : nat := 64 * 1024.
Definition bufio_ErrTooLong : error := errors_New "bufio.Scanner: token too long".

(** The lines [bufio.ScanLines] cuts a text into, before the carriage
    return at the end of a line is dropped: a newline ends a line, and
    bytes after the last newline make a last line. *)
Fixpoint scanLines (data : string) : list string :=
  match data with
  | EmptyString => []
  | String c rest =>
      if Ascii.eqb c "010" then EmptyString :: scanLines rest
      else match scanLines rest with
           | [] => [String c EmptyString]
           | line :: lines => String c line :: lines
           end
  end.

Fixpoint dropCR (line : string) : string :=
  match line with
  | EmptyString => EmptyString
  | String c EmptyString => if Ascii.eqb c "013" then EmptyString else line
  | String c rest => String c (dropCR rest)
  end.

Fixpoint shortLines (lines : list string) : list string :=
  match lines with
  | [] => []
  | line :: rest =>
      if (String.length line <? bufio_MaxScanTokenSize)%nat
      then line :: shortLines rest else []
  end.

(** [for scanner.Scan() { buf = append(buf, scanner.Text()) }] followed by
    [scanner.Err()], for a scanner with the default buffer: a line of
    [MaxScanTokenSize] bytes or more stops the scan with [ErrTooLong]; a
    read error of the file stops it after the bytes read so far. *)
Definition scanAll (f : File) : list string * option error :=
  let lines := scanLines (fileData f) in
  if forallb (fun line => (String.length line <? bufio_MaxScanTokenSize)%nat) lines
  then (map dropCR lines, fileReadErr f)
  else (map dropCR (shortLines lines), Some bufio_ErrTooLong).

Definition SwapCheck_Check (swc : SwapCheck) (w : World)
  : (list error * list error) * World :=
  match os_Open w "/proc/swaps" with
  | inr _ => (([], []), w)
  | inl f =>
      let '(buf, err) := scanAll f in
      match err with
      | Some e => (([], [errors_Wrap e "error parsing /proc/swaps"]), w)
      | None =>
          if (1 <? length buf)%nat then
            (([], [errors_New "running with swap on is not supported. Please disable swap"]), w)
          else (([], []), w)
      end
  end.

#[export] Instance SwapCheck_Checker : Checker SwapCheck :=
  {| Check := SwapCheck_Check; Name := SwapCheck_Name |}.

(** *** [NumCPUCheck] *)

Record NumCPUCheck : Type := {
  NumCPU : Z
}.

Definition NumCPUCheck_Name (ncc : NumCPUCheck) : string := "NumCPU".

Definition NumCPUCheck_Check (h : HostProbes) (ncc : NumCPUCheck) (w : World)
  : (list error * list error) * World :=
  let numCPU := runtime_NumCPU h w in
  if (numCPU <? NumCPU ncc)%Z then
    (([], [errors_New ("the number of available CPUs " +:+ fmt_dZ numCPU
                       +:+ " is less than the required " +:+ fmt_dZ (NumCPU ncc))]), w)
  else (([], []), w).

#[export] Instance NumCPUCheck_Checker (h : HostProbes) : Checker NumCPUCheck :=
  {| Check := NumCPUCheck_Check h; Name := NumCPUCheck_Name |}.

(** *** [RunRootCheckOnly] *)

(** [os.Stderr] is passed in as the writer and handed back. *)
Definition RunRootCheckOnly (h : HostProbes) (stderr : list string)
    (ignorePreflightErrors : gset string) (w : World)
  : option Error * list string * World :=
  let checks := [checker (M := IsPrivilegedUserCheck_Checker h) mkIsPrivilegedUserCheck] in
  RunChecks checks stderr ignorePreflightErrors w.


(** * Properties *)

(** ** Vocabulary for statements about a run *)

(** What the checks of a run returned, in run order: every check is
    executed in the environment its predecessors left. *)
Fixpoint runReturns (checks : list CheckerV) (w : World)
  : list (string * (list error * list error)) :=
  match checks with
  | [] => []
  | c :: rest =>
      let '(r, w') := cCheck c w in (cName c, r) :: runReturns rest w'
  end.

(** The environment a run leaves. *)
Fixpoint runWorld (checks : list CheckerV) (w : World) : World :=
  match checks with
  | [] => w
  | c :: rest => runWorld rest (cCheck c w).2
  end.

Definition survivingWarnings (ignore : gset string)
    (nr : string * (list error * list error)) : list error :=
  (decreaseSeverity ignore nr.1 nr.2.1 nr.2.2).1.

Definition survivingErrors (ignore : gset string)
    (nr : string * (list error * list error)) : list error :=
  (decreaseSeverity ignore nr.1 nr.2.1 nr.2.2).2.

(** Concatenation of the chunks of a buffer. *)
Definition joinLines (l : list string) : string :=
  fold_right String.append EmptyString l.

Definition sinkLines (ignore : gset string)
    (rs : list (string * (list error * list error))) : list string :=
  flat_map (fun nr => map (warningLine nr.1) (survivingWarnings ignore nr)) rs.

Definition bufferLines (ignore : gset string)
    (rs : list (string * (list error * list error))) : list string :=
  flat_map (fun nr => map (errorLine nr.1) (survivingErrors ignore nr)) rs.

(** ** Vocabulary for the version-skew statements *)

(** What [MustParseSemantic] yields on [firstUnsupportedVersionText]: the
    next minor at patch 0 with the pre-release [0], the lowest there is. *)
Definition firstUnsupportedVersion (kadmVersion : versionutil.Version)
  : versionutil.Version :=
  {| versionutil.Major := versionutil.Major kadmVersion;
     versionutil.Minor := (versionutil.Minor kadmVersion + 1) mod versionutil.uintMod;
     versionutil.Patch := 0;
     versionutil.preRelease := [versionutil.PreNum 0];
     versionutil.buildMetadata := EmptyString |}.

(** The threshold in the words of the specification: major.(minor+1).0
    with no pre-release. *)
Definition firstUnsupportedVersion_spec (kadmVersion : versionutil.Version)
  : versionutil.Version :=
  {| versionutil.Major := versionutil.Major kadmVersion;
     versionutil.Minor := (versionutil.Minor kadmVersion + 1) mod versionutil.uintMod;
     versionutil.Patch := 0;
     versionutil.preRelease := [];
     versionutil.buildMetadata := EmptyString |}.

Definition v1_20_0 : versionutil.Version :=
  {| versionutil.Major := 1; versionutil.Minor := 20; versionutil.Patch := 0;
     versionutil.preRelease := []; versionutil.buildMetadata := EmptyString |}.

Definition v1_21_0_alpha_1 : versionutil.Version :=
  {| versionutil.Major := 1; versionutil.Minor := 21; versionutil.Patch := 0;
     versionutil.preRelease := [versionutil.PreAlnum "alpha"; versionutil.PreNum 1];
     versionutil.buildMetadata := EmptyString |}.

(** The warning of [KubernetesVersionCheck.Check]. *)
Definition versionSkewWarning (kadmVersion k8sVersion : versionutil.Version) : error :=
  errors_New
    ("Kubernetes version is greater than kubeadm version. Please consider to upgrade kubeadm. Kubernetes version: "
     +:+ versionutil.Version_String k8sVersion
     +:+ ". Kubeadm version: " +:+ fmt_d (versionutil.Major kadmVersion)
     +:+ "." +:+ fmt_d (versionutil.Minor kadmVersion) +:+ ".x").

Definition kubeadm_1_20_with_alpha_cluster : KubernetesVersionCheck :=
  {| KubeadmVersion := "v1.20.0"; KubernetesVersion := "v1.21.0-alpha.1" |}.

Definition kubeadm_1_20_with_1_20_cluster : KubernetesVersionCheck :=
  {| KubeadmVersion := "v1.20.0"; KubernetesVersion := "v1.20.15" |}.

(** ** Sample environments and checks *)

Definition noSuchFile (path : string) : File + error :=
  inr (errors_New ("open " +:+ path +:+ ": no such file or directory")).

Definition systemd : InitSystem :=
  {| EnableCommand := fun service => "systemctl enable " +:+ service +:+ ".service";
     ServiceExists := fun service => String.eqb service "kubelet";
     ServiceIsEnabled := fun service => String.eqb service "kubelet";
     ServiceIsActive := fun _ => false |}.

(** A host with systemd, IP forwarding switched on, port 10250 taken and no
    runtime call yet. *)
Definition sampleWorld : World :=
  {| initsystem_GetInitSystem := inl systemd;
     os_Open := fun path =>
       if String.eqb path "/proc/sys/net/ipv4/ip_forward"
       then inl {| fileData := "1" +:+ NL; fileReadErr := None |}
       else noSuchFile path;
     net_Listen := fun p =>
       if (p =? 10250)%Z then (None, Some (errors_New "listen tcp :10250: bind: address already in use"))
       else (Some {| ln_Close := None |}, None);
     runtimeCalls := [] |}.

(** The same host when no supported init system is detected. *)
Definition noInitSystemError : error :=
  errors_New "no supported init system detected, skipping checking for services".

Definition noInitSystemWorld : World :=
  {| initsystem_GetInitSystem := inr noInitSystemError;
     os_Open := os_Open sampleWorld;
     net_Listen := net_Listen sampleWorld;
     runtimeCalls := [] |}.

Definition ipForwardCheck : FileContentCheck :=
  {| fcc_Path := "/proc/sys/net/ipv4/ip_forward"; Content := "1"; fcc_Label := "" |}.

Definition bridgeNfCheck : FileContentCheck :=
  {| fcc_Path := "/proc/sys/net/bridge/bridge-nf-call-iptables"; Content := "1";
     fcc_Label := "" |}.

Definition kubeletServiceCheck : ServiceCheck :=
  {| Service := "kubelet"; CheckIfActive := false; sc_Label := "" |}.

Definition kubeletActiveCheck : ServiceCheck :=
  {| Service := "kubelet"; CheckIfActive := true; sc_Label := "" |}.

Definition firewalldCheck : FirewalldCheck := {| ports := [6443; 10250]%Z |}.

Definition kubeletPortCheck : PortOpenCheck := {| port := 10250; label := "" |}.

(** A runtime that holds image "a" only and cannot pull "b". *)
Definition holdsAFailsB : ContainerRuntime :=
  {| rtIsRunning := fun _ => None;
     rtImageExists := fun _ image => (String.eqb image "a", None);
     rtPullImage := fun _ image =>
       if String.eqb image "b" then Some (errors_New "pull access denied") else None |}.

(** ** Vocabulary for further statements *)

(** The bytes of the ASCII range, on which the text helpers above agree
    with Go for every input. *)
Definition isASCII (c : ascii) : bool := (nat_of_ascii c <? 128)%nat.

(** The error of two runs made one after the other. *)
Definition joinErrors (e1 e2 : option Error) : option Error :=
  match e1, e2 with
  | None, e => e
  | e, None => e
  | Some a, Some b => Some (mkError (Msg a +:+ Msg b))
  end.

(** The images whose existence a stretch of runtime calls asks for, and the
    images it pulls. *)
Definition existsQueries (calls : list RuntimeCall) : list string :=
  omap (fun c => if c is CallImageExists image then Some image else None) calls.

Definition pulls (calls : list RuntimeCall) : list string :=
  omap (fun c => if c is CallPullImage image then Some image else None) calls.

(** Every diagnostic the checks of a run returned, with the name of its
    check: per check the warnings, then the errors. *)
Definition allDiagnostics (rs : list (string * (list error * list error)))
  : list (string * error) :=
  flat_map (fun nr => map (pair nr.1) (nr.2.1 ++ nr.2.2)) rs.

(** ** Further sample environments *)

Definition noSuchFileError : error := errors_New "no such file or directory".

Definition kubeletExec : utilsexec_Interface :=
  {| LookPath := fun file =>
       if String.eqb file "kubelet" then inl "/usr/bin/kubelet"
       else inr (errors_New ("exec: " +:+ fmt_q file
                             +:+ ": executable file not found in $PATH")) |}.

Definition v1_22_3 : versionutil.Version :=
  {| versionutil.Major := 1; versionutil.Minor := 22; versionutil.Patch := 3;
     versionutil.preRelease := []; versionutil.buildMetadata := EmptyString |}.

(** A Linux host with four CPUs where only [/etc/kubernetes] exists, as an
    empty directory, run by an unprivileged user. *)
Definition sampleProbes : HostProbes :=
  {| os_Stat := fun _ path =>
       if String.eqb path "/etc/kubernetes" then None else Some noSuchFileError;
     os_IsNotExist := fun _ => true;
     Readdirnames := fun _ _ _ _ => ([], readdirEOF);
     net_LookupHost := fun _ name =>
       if String.eqb name "localhost" then (Some ["127.0.0.1"], None)
       else (None, Some (errors_New ("lookup " +:+ name +:+ ": no such host")));
     validation_IsQualifiedName := fun _ => [];
     runtime_NumCPU := fun _ => 4%Z;
     runtime_GOOS := "linux";
     KernelValidator_Validate := fun _ => ([], []);
     DockerValidator_Validate := fun _ => ([errors_New "docker version is not validated"], []);
     OSValidator_Validate := fun _ => ([], []);
     CgroupsValidator_Validate := fun _ => ([], [errors_New "missing cgroups: memory"]);
     GetKubeletVersion := fun _ _ => inl v1_22_3;
     MinimumKubeletVersion := v1_20_0;
     IsPrivilegedUserCheck_Check := fun w =>
       (([], [errors_New "user is not running as root"]), w) |}.

(** [sampleWorld] with a swap partition listed in [/proc/swaps]. *)
Definition swapOnWorld : World :=
  {| initsystem_GetInitSystem := initsystem_GetInitSystem sampleWorld;
     os_Open := fun path =>
       if String.eqb path "/proc/swaps"
       then inl {| fileData := "Filename Type Size Used Priority" +:+ NL
                               +:+ "/dev/sda2 partition 2097148 0 -2" +:+ NL;
                   fileReadErr := None |}
       else os_Open sampleWorld path;
     net_Listen := net_Listen sampleWorld;
     runtimeCalls := [] |}.

(** A runtime that holds every image. *)
Definition holdsAll : ContainerRuntime :=
  {| rtIsRunning := fun _ => None;
     rtImageExists := fun _ _ => (true, None);
     rtPullImage := fun _ _ => Some (errors_New "registry unreachable") |}.

(** ** Strings *)

Lemma append_cons (x : ascii) (a b : string) : String x a +:+ b = String x (a +:+ b).
Proof. reflexivity. Qed.

Lemma append_empty_l (b : string) : EmptyString +:+ b = b.
Proof. reflexivity. Qed.

Lemma append_assoc (a b c : string) : (a +:+ b) +:+ c = a +:+ (b +:+ c).
Proof.
  induction a as [|x a IH]; [reflexivity|].
  rewrite !append_cons. now rewrite IH.
Qed.

Lemma append_empty_r (a : string) : a +:+ EmptyString = a.
Proof.
  induction a as [|x a IH]; [reflexivity|].
  rewrite append_cons. now rewrite IH.
Qed.

Lemma joinLines_app (l1 l2 : list string) :
  joinLines (l1 ++ l2) = joinLines l1 +:+ joinLines l2.
Proof.
  induction l1 as [|x l1 IH]; simpl; [reflexivity|].
  now rewrite IH, append_assoc.
Qed.

Lemma joinLines_empty_iff (l : list string) :
  Forall (fun x => x <> EmptyString) l ->
  joinLines l = EmptyString <-> l = [].
Proof.
  intros Hne. split; [|now intros ->].
  destruct l as [|x l]; [reflexivity|]. simpl.
  inversion Hne as [|? ? Hx _]; subst.
  destruct x; [contradiction | discriminate].
Qed.

Lemma errorLine_nonempty (name : string) (i : error) : errorLine name i <> EmptyString.
Proof. unfold errorLine, TAB. simpl. discriminate. Qed.

Section Orchestration.

Variable ignore : gset string.

Lemma bufferLines_nonempty rs :
  Forall (fun x => x <> EmptyString) (bufferLines ignore rs).
Proof.
  unfold bufferLines. apply Forall_forall. intros x Hx.
  apply list_elem_of_In, in_flat_map in Hx. destruct Hx as (nr & _ & Hx).
  apply in_map_iff in Hx. destruct Hx as (i & <- & _). apply errorLine_nonempty.
Qed.

(** ** The loops of [RunChecks] in closed form *)

Lemma write_warnings_loop (name : string) (warnings : list error) (out : list string) :
  fold_left (fun out w => out ++ [warningLine name w]) warnings out
  = out ++ map (warningLine name) warnings.
Proof.
  revert out. induction warnings as [|w ws IH]; intros out; simpl.
  - now rewrite app_nil_r.
  - rewrite IH. now rewrite <- app_assoc.
Qed.

Lemma write_errors_loop (name : string) (errs : list error) (buf : string) :
  fold_left (fun buf i => buf +:+ errorLine name i) errs buf
  = buf +:+ joinLines (map (errorLine name) errs).
Proof.
  revert buf. induction errs as [|i es IH]; intros buf; simpl.
  - now rewrite append_empty_r.
  - rewrite IH. now rewrite append_assoc.
Qed.

Lemma RunChecks_body_eq st c :
  RunChecks_body ignore st c =
  let nr := (cName c, (cCheck c (world st)).1) in
  {| ww := ww st ++ map (warningLine (cName c)) (survivingWarnings ignore nr);
     errsBuffer := errsBuffer st +:+ joinLines (map (errorLine (cName c)) (survivingErrors ignore nr));
     world := (cCheck c (world st)).2 |}.
Proof.
  unfold RunChecks_body, survivingWarnings, survivingErrors. simpl.
  destruct (cCheck c (world st)) as [[warnings errs] w']. simpl.
  destruct (decreaseSeverity ignore (cName c) warnings errs) as [ws es]. simpl.
  now rewrite write_warnings_loop, write_errors_loop.
Qed.

Lemma RunChecks_loop_eq checks st :
  RunChecks_loop checks ignore st =
  {| ww := ww st ++ sinkLines ignore (runReturns checks (world st));
     errsBuffer := errsBuffer st +:+ joinLines (bufferLines ignore (runReturns checks (world st)));
     world := runWorld checks (world st) |}.
Proof.
  unfold RunChecks_loop. revert st.
  induction checks as [|c rest IH]; intros st; simpl.
  - rewrite app_nil_r, append_empty_r. now destruct st.
  - rewrite IH, RunChecks_body_eq. simpl.
    destruct (cCheck c (world st)) as [r w'] eqn:Hc. simpl.
    unfold sinkLines, bufferLines. simpl.
    rewrite joinLines_app, append_assoc, <- app_assoc. reflexivity.
Qed.

Lemma RunChecks_eq checks ww0 w :
  RunChecks checks ww0 ignore w =
  (match bufferLines ignore (runReturns checks w) with
   | [] => None
   | _ :: _ => Some (mkError (joinLines (bufferLines ignore (runReturns checks w))))
   end,
   ww0 ++ sinkLines ignore (runReturns checks w),
   runWorld checks w).
Proof.
  unfold RunChecks. rewrite RunChecks_loop_eq. simpl.
  destruct (bufferLines ignore (runReturns checks w)) as [|l ls] eqn:Hb.
  - reflexivity.
  - assert (Hne : joinLines (l :: ls) <> EmptyString).
    { intros H. pose proof (bufferLines_nonempty (runReturns checks w)) as Hf.
      rewrite Hb in Hf. apply joinLines_empty_iff in H; [discriminate | exact Hf]. }
    destruct (joinLines (l :: ls)) eqn:Hj; [contradiction | reflexivity].
Qed.

Lemma bufferLines_nil_iff rs :
  bufferLines ignore rs = [] <-> Forall (fun nr => survivingErrors ignore nr = []) rs.
Proof.
  unfold bufferLines. induction rs as [|nr rs IH]; simpl.
  - split; auto.
  - split.
    + intros H. apply app_eq_nil in H. destruct H as [H1 H2].
      constructor; [| now apply IH].
      destruct (survivingErrors ignore nr); [reflexivity | discriminate].
    + intros H. inversion H as [|? ? H1 H2]; subst.
      rewrite H1. simpl. now apply IH.
Qed.

Lemma bufferLines_cons_iff rs :
  bufferLines ignore rs <> [] <-> Exists (fun nr => survivingErrors ignore nr <> []) rs.
Proof.
  unfold bufferLines. induction rs as [|nr rs IH]; simpl.
  - split; [congruence | intros H; inversion H].
  - destruct (survivingErrors ignore nr) as [|e es] eqn:He; simpl.
    + rewrite IH. split; intros H.
      * now apply Exists_cons_tl.
      * inversion H as [? ? H1|? ? H1]; subst; [congruence | exact H1].
    + split; [intros _ | discriminate].
      apply Exists_cons_hd. rewrite He. discriminate.
Qed.

End Orchestration.

Lemma runReturns_names checks w : map fst (runReturns checks w) = map cName checks.
Proof.
  revert w. induction checks as [|c rest IH]; intros w; simpl; [reflexivity|].
  destruct (cCheck c w) as [r w']. simpl. now rewrite IH.
Qed.

Lemma setHasItemOrAll_true_iff (s : gset string) (item : string) :
  setHasItemOrAll s item = true <-> "all" ∈ s \/ strings_ToLower item ∈ s.
Proof.
  unfold setHasItemOrAll.
  destruct (bool_decide ("all" ∈ s)) eqn:Ha; destruct (bool_decide (strings_ToLower item ∈ s)) eqn:Hi;
    simpl;
    try apply bool_decide_eq_true in Ha; try apply bool_decide_eq_true in Hi;
    try apply bool_decide_eq_false in Ha; try apply bool_decide_eq_false in Hi;
    intuition congruence.
Qed.

(** ** Ignore matching *)

Lemma toLowerByte_not_upper (c : ascii) : isUpper (toLowerByte c) = false.
Proof.
  unfold toLowerByte. destruct (isUpper c) eqn:Hc; [|exact Hc].
  unfold isUpper in *. apply andb_true_iff in Hc. destruct Hc as [H1 H2].
  apply Nat.leb_le in H1, H2.
  rewrite nat_ascii_embedding by lia.
  apply andb_false_iff. right. apply Nat.leb_gt. lia.
Qed.

Lemma strings_ToLower_no_upper (s : string) : hasUpper (strings_ToLower s) = false.
Proof.
  induction s as [|c s IH]; simpl; [reflexivity|].
  now rewrite toLowerByte_not_upper, IH.
Qed.

(** ** Properties of [RunChecks] *)

(** C1. [RunChecks] returns a non-nil error exactly when, after the
    downgrade by the ignore list, some check of the run has a non-empty
    errors sequence; it returns nil exactly when no check has one, however
    many warnings there are. *)
Theorem RunChecks_error_iff_surviving_error
    (checks : list CheckerV) (ww0 : list string) (ignore : gset string) (w : World) :
  ((RunChecks checks ww0 ignore w).1.1 <> None
   <-> Exists (fun nr => survivingErrors ignore nr <> []) (runReturns checks w))
  /\ ((RunChecks checks ww0 ignore w).1.1 = None
      <-> Forall (fun nr => survivingErrors ignore nr = []) (runReturns checks w)).
Proof.
  rewrite RunChecks_eq. simpl.
  rewrite <- bufferLines_cons_iff, <- bufferLines_nil_iff.
  destruct (bufferLines ignore (runReturns checks w)); split; split; intros H;
    congruence.
Qed.


(** C3. The sink receives, after what it held, one line
    [\t[WARNING <name>]: <message>\n] per surviving warning, check after
    check in the order of [checks] and, within a check, in the order of its
    warnings; the error buffer is the concatenation of one line
    [\t[ERROR <name>]: <message>\n] per surviving error in the same order. *)
Theorem RunChecks_lines_in_encounter_order
    (checks : list CheckerV) (ww0 : list string) (ignore : gset string) (w : World) :
  let rs := runReturns checks w in
  map fst rs = map cName checks
  /\ (RunChecks checks ww0 ignore w).1.2
     = ww0 ++ flat_map (fun nr =>
                 map (fun m => TAB +:+ "[WARNING " +:+ nr.1 +:+ "]: " +:+ error_Error m +:+ NL)
                     (survivingWarnings ignore nr)) rs
  /\ errsBuffer (RunChecks_loop checks ignore
                   {| ww := ww0; errsBuffer := EmptyString; world := w |})
     = joinLines (flat_map (fun nr =>
                    map (fun m => TAB +:+ "[ERROR " +:+ nr.1 +:+ "]: " +:+ error_Error m +:+ NL)
                        (survivingErrors ignore nr)) rs).
Proof.
  intros rs. split; [apply runReturns_names|].
  rewrite RunChecks_eq, RunChecks_loop_eq. simpl. split; reflexivity.
Qed.

(** C7. When some error survives the downgrade, [RunChecks] returns an
    [Error] whose [Error()] text is the line
    "[preflight] Some fatal errors occurred:", then the whole error buffer,
    one line [\t[ERROR <name>]: <message>\n] per surviving error with the
    name of the check that returned it, in run order, then the hint about
    [--ignore-preflight-errors]. *)
Theorem RunChecks_error_rendering
    (checks : list CheckerV) (ww0 : list string) (ignore : gset string) (w : World) :
  Exists (fun nr => survivingErrors ignore nr <> []) (runReturns checks w) ->
  exists e : Error,
    (RunChecks checks ww0 ignore w).1.1 = Some e
    /\ Msg e
       = joinLines
           (flat_map (fun nr =>
              map (fun m => TAB +:+ "[ERROR " +:+ nr.1 +:+ "]: " +:+ error_Error m +:+ NL)
                  (survivingErrors ignore nr))
              (runReturns checks w))
    /\ Error_Error e
       = "[preflight] Some fatal errors occurred:" +:+ NL
         +:+ joinLines
               (flat_map (fun nr =>
                  map (fun m => TAB +:+ "[ERROR " +:+ nr.1 +:+ "]: " +:+ error_Error m +:+ NL)
                      (survivingErrors ignore nr))
                  (runReturns checks w))
         +:+ "[preflight] If you know what you are doing, you can make a check non-fatal with `--ignore-preflight-errors=...`".
Proof.
  intros H. apply bufferLines_cons_iff in H.
  rewrite RunChecks_eq. simpl.
  change (flat_map (fun nr =>
            map (fun m => TAB +:+ "[ERROR " +:+ nr.1 +:+ "]: " +:+ error_Error m +:+ NL)
                (survivingErrors ignore nr)) (runReturns checks w))
    with (bufferLines ignore (runReturns checks w)).
  destruct (bufferLines ignore (runReturns checks w)) as [|l ls] eqn:Hb; [congruence|].
  eexists. split; [reflexivity|]. split; reflexivity.
Qed.

(** C8. When every check of the run returns no warning and no error,
    [RunChecks] returns nil and writes nothing to the sink, whatever the
    ignore set holds. *)
Theorem RunChecks_no_findings
    (checks : list CheckerV) (ww0 : list string) (ignore : gset string) (w : World) :
  Forall (fun nr => nr.2 = ([], [])) (runReturns checks w) ->
  (RunChecks checks ww0 ignore w).1.1 = None
  /\ (RunChecks checks ww0 ignore w).1.2 = ww0.
Proof.
  intros H. rewrite RunChecks_eq. simpl.
  assert (Hb : bufferLines ignore (runReturns checks w) = []
               /\ sinkLines ignore (runReturns checks w) = []).
  { unfold bufferLines, sinkLines, survivingErrors, survivingWarnings, decreaseSeverity.
    induction H as [|[name [ws es]] rs Hx _ IH]; simpl; [auto|].
    simpl in Hx. injection Hx as -> ->. destruct IH as [IH1 IH2].
    rewrite IH1, IH2. destruct (setHasItemOrAll ignore name); auto. }
  destruct Hb as [-> ->]. now rewrite app_nil_r.
Qed.

(** C9. Only the name of the check is lower-cased.  A token of the ignore
    set with an upper-case letter equals no lower-cased name, so it can be
    dropped from the set without changing any match; a set made of such a
    token does not downgrade a check whose name equals the token up to
    case. *)
Theorem uppercase_token_matches_nothing (s : gset string) (t name : string) :
  hasUpper t = true ->
  strings_ToLower name <> t
  /\ setHasItemOrAll ({[ t ]} ∪ s) name = setHasItemOrAll s name
  /\ (strings_ToLower name = strings_ToLower t ->
      setHasItemOrAll {[ t ]} name = false
      /\ forall warnings errs,
           decreaseSeverity {[ t ]} name warnings errs = (warnings, errs)).
Proof.
  intros Ht.
  assert (Hne : strings_ToLower name <> t).
  { intros <-. rewrite strings_ToLower_no_upper in Ht. discriminate. }
  assert (Hall : t <> "all") by (intros ->; discriminate).
  split; [exact Hne|]. split.
  - assert (H1 : "all" ∈ {[t]} ∪ s <-> "all" ∈ s).
    { rewrite elem_of_union, elem_of_singleton. intuition congruence. }
    assert (H2 : strings_ToLower name ∈ {[t]} ∪ s <-> strings_ToLower name ∈ s).
    { rewrite elem_of_union, elem_of_singleton. intuition congruence. }
    unfold setHasItemOrAll.
    now rewrite (bool_decide_ext _ _ H1), (bool_decide_ext _ _ H2).
  - intros _.
    assert (Hf : setHasItemOrAll {[t]} name = false).
    { unfold setHasItemOrAll.
      rewrite (bool_decide_eq_false_2 ("all" ∈ ({[t]} : gset string))).
      2:{ rewrite elem_of_singleton. congruence. }
      rewrite (bool_decide_eq_false_2 (strings_ToLower name ∈ ({[t]} : gset string))).
      2:{ rewrite elem_of_singleton. congruence. }
      reflexivity. }
    split; [exact Hf|]. intros warnings errs. unfold decreaseSeverity. now rewrite Hf.
Qed.

(** C7 at a run whose second check fails: the bridge file is missing. *)
Lemma RunChecks_error_rendering_witness :
  exists e : Error,
    (RunChecks [checker ipForwardCheck; checker bridgeNfCheck] [] ∅ sampleWorld).1.1 = Some e
    /\ Msg e
       = joinLines
           (flat_map (fun nr =>
              map (fun m => TAB +:+ "[ERROR " +:+ nr.1 +:+ "]: " +:+ error_Error m +:+ NL)
                  (survivingErrors ∅ nr))
              (runReturns [checker ipForwardCheck; checker bridgeNfCheck] sampleWorld))
    /\ Error_Error e
       = "[preflight] Some fatal errors occurred:" +:+ NL
         +:+ joinLines
               (flat_map (fun nr =>
                  map (fun m => TAB +:+ "[ERROR " +:+ nr.1 +:+ "]: " +:+ error_Error m +:+ NL)
                      (survivingErrors ∅ nr))
                  (runReturns [checker ipForwardCheck; checker bridgeNfCheck] sampleWorld))
         +:+ "[preflight] If you know what you are doing, you can make a check non-fatal with `--ignore-preflight-errors=...`".
Proof.
  apply (RunChecks_error_rendering [checker ipForwardCheck; checker bridgeNfCheck]
           [] ∅ sampleWorld).
  apply Exists_cons_tl, Exists_cons_hd. vm_compute. discriminate.
Defined.

(** C8 at a run of two checks that find nothing. *)
Lemma RunChecks_no_findings_witness :
  (RunChecks [checker ipForwardCheck; checker kubeletServiceCheck] [] {[ "all" ]} sampleWorld).1.1
  = None
  /\ (RunChecks [checker ipForwardCheck; checker kubeletServiceCheck] [] {[ "all" ]} sampleWorld).1.2
     = [].
Proof.
  apply (RunChecks_no_findings [checker ipForwardCheck; checker kubeletServiceCheck]
           [] {[ "all" ]} sampleWorld).
  repeat constructor.
Defined.

(** C9 at the token "Swap" and the check named "Swap". *)
Lemma uppercase_token_matches_nothing_witness :
  strings_ToLower "Swap" <> "Swap"
  /\ setHasItemOrAll ({[ "Swap" ]} ∪ ∅) "Swap" = setHasItemOrAll ∅ "Swap"
  /\ (strings_ToLower "Swap" = strings_ToLower "Swap" ->
      setHasItemOrAll {[ "Swap" ]} "Swap" = false
      /\ forall warnings errs,
           decreaseSeverity {[ "Swap" ]} "Swap" warnings errs = (warnings, errs)).
Proof.
  apply (uppercase_token_matches_nothing ∅ "Swap" "Swap"). reflexivity.
Defined.

(** ** Init-system detection in [ServiceCheck] and [FirewalldCheck] *)

(** C6, as stated, fails: when no init system is detected the error of the
    detection is not among the errors of [ServiceCheck]; the errors are
    empty and the detection error is the one warning. *)
Lemma undetected_init_system_is_not_an_error :
  ~ (noInitSystemError ∈ (ServiceCheck_Check kubeletServiceCheck noInitSystemWorld).1.2)
  /\ (ServiceCheck_Check kubeletServiceCheck noInitSystemWorld).1
     = ([noInitSystemError], [])
  /\ (FirewalldCheck_Check firewalldCheck noInitSystemWorld).1
     = ([noInitSystemError], []).
Proof.
  split; [|split; reflexivity].
  simpl. apply not_elem_of_nil.
Qed.

(** C6, amended.  When [initsystem.GetInitSystem] fails, [ServiceCheck] and
    [FirewalldCheck] return its error as their only warning, with no error
    and the environment untouched; run alone with an empty ignore set, such
    a check makes [RunChecks] write one warning line and return nil. *)
Theorem undetected_init_system_is_a_warning
    (sc : ServiceCheck) (fc : FirewalldCheck) (w : World) (err : error) :
  initsystem_GetInitSystem w = inr err ->
  ServiceCheck_Check sc w = (([err], []), w)
  /\ FirewalldCheck_Check fc w = (([err], []), w)
  /\ (RunChecks [checker sc] [] ∅ w).1
     = (None, [warningLine (ServiceCheck_Name sc) err])
  /\ (RunChecks [checker fc] [] ∅ w).1
     = (None, [warningLine "Firewalld" err]).
Proof.
  intros H.
  assert (Hs : ServiceCheck_Check sc w = (([err], []), w))
    by (unfold ServiceCheck_Check; now rewrite H).
  assert (Hf : FirewalldCheck_Check fc w = (([err], []), w))
    by (unfold FirewalldCheck_Check; now rewrite H).
  split; [exact Hs|]. split; [exact Hf|].
  rewrite !RunChecks_eq. simpl. rewrite Hs, Hf. simpl.
  unfold bufferLines, sinkLines, survivingErrors, survivingWarnings, decreaseSeverity.
  simpl. split; reflexivity.
Qed.

Lemma undetected_init_system_is_a_warning_witness :
  ServiceCheck_Check kubeletServiceCheck noInitSystemWorld
  = (([noInitSystemError], []), noInitSystemWorld)
  /\ FirewalldCheck_Check firewalldCheck noInitSystemWorld
     = (([noInitSystemError], []), noInitSystemWorld)
  /\ (RunChecks [checker kubeletServiceCheck] [] ∅ noInitSystemWorld).1
     = (None, [warningLine (ServiceCheck_Name kubeletServiceCheck) noInitSystemError])
  /\ (RunChecks [checker firewalldCheck] [] ∅ noInitSystemWorld).1
     = (None, [warningLine "Firewalld" noInitSystemError]).
Proof.
  apply (undetected_init_system_is_a_warning kubeletServiceCheck firewalldCheck
           noInitSystemWorld noInitSystemError).
  reflexivity.
Defined.

(** ** [FileContentCheck] *)

Lemma substring_prefix (a rest : string) :
  String.substring 0 (String.length a) (a +:+ rest) = a.
Proof.
  induction a as [|c a IH]; simpl.
  - rewrite append_empty_l. now destruct rest.
  - now rewrite IH.
Qed.

Lemma length_append (a b : string) :
  String.length (a +:+ b) = String.length a + String.length b.
Proof.
  induction a as [|c a IH]; [reflexivity|].
  rewrite append_cons. simpl. now rewrite IH.
Qed.

(** C10.  [FileContentCheck] looks at the first [len(Content)] bytes of the
    file only: a file that opens and starts with [Content] passes with no
    warning and no error, whatever follows (bytes or a read failure);
    warnings are never produced; and an error is reported exactly when the
    file does not open, or a read fails before [len(Content)] bytes came,
    or those first bytes differ from [Content]. *)
Theorem FileContentCheck_compares_prefix (fcc : FileContentCheck) (w : World) :
  (forall (f : File) (rest : string),
      os_Open w (fcc_Path fcc) = inl f ->
      fileData f = Content fcc +:+ rest ->
      FileContentCheck_Check fcc w = (([], []), w))
  /\ (FileContentCheck_Check fcc w).1.1 = []
  /\ ((FileContentCheck_Check fcc w).1.2 <> [] <->
      (exists e, os_Open w (fcc_Path fcc) = inr e)
      \/ (exists f, os_Open w (fcc_Path fcc) = inl f
                    /\ String.length (fileData f) < String.length (Content fcc)
                    /\ fileReadErr f <> None)
      \/ (exists f, os_Open w (fcc_Path fcc) = inl f
                    /\ String.substring 0 (String.length (Content fcc)) (fileData f)
                       <> Content fcc)).
Proof.
  unfold FileContentCheck_Check, io_Copy_LimitReader, bytes_Equal.
  split; [|split].
  - intros f rest Ho Hd. rewrite Ho, Hd.
    rewrite length_append.
    replace (String.length (Content fcc) <=? String.length (Content fcc) + String.length rest)
      with true by (symmetry; apply Nat.leb_le; lia).
    rewrite substring_prefix, String.eqb_refl. reflexivity.
  - destruct (os_Open w (fcc_Path fcc)) as [f|e]; [|reflexivity].
    destruct (String.length (Content fcc) <=? String.length (fileData f)).
    + destruct (String.eqb _ _); reflexivity.
    + destruct (fileReadErr f); [reflexivity|]. destruct (String.eqb _ _); reflexivity.
  - destruct (os_Open w (fcc_Path fcc)) as [f|e].
    2:{ simpl. split; [intros _; left; eauto | intros _; discriminate]. }
    destruct (String.length (Content fcc) <=? String.length (fileData f)) eqn:Hlen.
    + apply Nat.leb_le in Hlen.
      destruct (String.eqb_spec (String.substring 0 (String.length (Content fcc)) (fileData f))
                  (Content fcc)) as [Heq|Hne]; simpl.
      * split; [congruence|].
        intros [[e He]|[(f' & Hf & Hl & _)|(f' & Hf & Hn)]];
          [discriminate | injection Hf as <-; lia | injection Hf as <-; contradiction].
      * split; [|discriminate]. intros _. right. right. eauto.
    + apply Nat.leb_gt in Hlen.
      destruct (fileReadErr f) as [re|] eqn:Hre; simpl.
      * split; [|discriminate]. intros _. right. left. exists f. rewrite Hre. eauto.
      * assert (Hsub : String.substring 0 (String.length (Content fcc)) (fileData f)
                       <> Content fcc).
        { intros Heq. apply (f_equal String.length) in Heq.
          assert (Hle : forall n s, String.length (String.substring 0 n s) <= String.length s).
          { clear. intros n s. revert n. induction s as [|c s IH]; intros [|n]; simpl; try lia.
            specialize (IH n). lia. }
          specialize (Hle (String.length (Content fcc)) (fileData f)). lia. }
        destruct (String.eqb_spec (fileData f) (Content fcc)) as [Heq|Hne]; simpl.
        -- rewrite Heq in Hlen. lia.
        -- split; [|discriminate]. intros _. right. right. eauto.
Qed.

Lemma FileContentCheck_compares_prefix_witness :
  FileContentCheck_Check ipForwardCheck sampleWorld = (([], []), sampleWorld).
Proof.
  apply (proj1 (FileContentCheck_compares_prefix ipForwardCheck sampleWorld)
           {| fileData := "1" +:+ NL; fileReadErr := None |} NL).
  - reflexivity.
  - reflexivity.
Defined.

(** ** [ImagePullCheck] *)

Lemma appendWrapped_app (errorList : list error) (err : option error) (msg : string) :
  appendWrapped errorList err msg
  = errorList ++ option_list ((fun e => errors_Wrap e msg) <$> err).
Proof. destruct err; simpl; [reflexivity | now rewrite app_nil_r]. Qed.

Lemma ImagePullCheck_loop_never rt images errorList w :
  ImagePullCheck_loop rt v1_PullNever images errorList w = (([], errorList), w).
Proof. induction images as [|image rest IH]; simpl; [reflexivity | exact IH]. Qed.

Lemma ImagePullCheck_loop_always_calls rt images errorList w :
  runtimeCalls (ImagePullCheck_loop rt v1_PullAlways images errorList w).2
  = runtimeCalls w ++ map CallPullImage images.
Proof.
  revert errorList w. induction images as [|image rest IH]; intros errorList w; simpl.
  - now rewrite app_nil_r.
  - rewrite IH. simpl. now rewrite <- app_assoc.
Qed.

Lemma ImagePullCheck_loop_acc rt policy images errorList w :
  ImagePullCheck_loop rt policy images errorList w
  = (([], errorList ++ (ImagePullCheck_loop rt policy images [] w).1.2),
     (ImagePullCheck_loop rt policy images [] w).2).
Proof.
  revert errorList w. induction images as [|image rest IH]; intros errorList w.
  - simpl. now rewrite app_nil_r.
  - cbn [ImagePullCheck_loop].
    destruct (String.eqb policy v1_PullNever); [apply IH|].
    destruct (String.eqb policy v1_PullIfNotPresent).
    { unfold ImageExists, pullCase, PullImage.
      destruct (rtImageExists rt (runtimeCalls w) image) as [ret err].
      destruct (ret && (if err is None then true else false)); [apply IH|].
      rewrite !appendWrapped_app. simpl app.
      match goal with
      | |- ImagePullCheck_loop _ _ _ ?l ?w' = _ => rewrite (IH l w')
      end.
      match goal with
      | |- _ = (_, _ ++ (ImagePullCheck_loop _ _ _ ?l ?w').1.2, _) => rewrite (IH l w')
      end.
      simpl. now rewrite <- !app_assoc. }
    destruct (String.eqb policy v1_PullAlways).
    { unfold pullCase, PullImage. rewrite !appendWrapped_app. simpl app.
      match goal with
      | |- ImagePullCheck_loop _ _ _ ?l ?w' = _ => rewrite (IH l w')
      end.
      match goal with
      | |- _ = (_, _ ++ (ImagePullCheck_loop _ _ _ ?l ?w').1.2, _) => rewrite (IH l w')
      end.
      simpl. now rewrite <- !app_assoc. }
    reflexivity.
Qed.

(** C4.  [ImagePullCheck.Check] walks its image list from the first image
    on.  Under [PullNever] no image is touched and no error is returned.
    Under [PullIfNotPresent] the runtime is asked whether the first image
    exists; the image is skipped when the answer is "present" without
    error, otherwise an error of the query (if any) is recorded and the
    image is pulled, an error of the pull being recorded too; the rest of
    the list is then treated the same way, its errors following.  Under
    [PullAlways] each image is pulled, in list order, and an error of the
    pull is recorded.  Under any other policy the first image ends the
    check with exactly one error and no call to the runtime, whatever the
    number of images left; with no image there is nothing to do. *)
Theorem ImagePullCheck_by_policy
    (rt : ContainerRuntime) (policy : string) (image : string) (rest : list string)
    (w : World) :
  let check := fun images =>
    ImagePullCheck_Check
      {| ipc_runtime := rt; imageList := images; imagePullPolicy := policy |} in
  let wrapped := fun (err : option error) (msg : string) =>
                   option_list ((fun e => errors_Wrap e msg) <$> err) in
  check [] w = (([], []), w)
  /\ (policy = v1_PullNever ->
      forall images, check images w = (([], []), w))
  /\ (policy = v1_PullIfNotPresent ->
      let w1 := recordCall w (CallImageExists image) in
      let w2 := recordCall w1 (CallPullImage image) in
      match rtImageExists rt (runtimeCalls w) image with
      | (true, None) => check (image :: rest) w = check rest w1
      | (_, err) =>
          check (image :: rest) w
          = (([],
              wrapped err ("failed to check if image " +:+ image +:+ " exists")
              ++ wrapped (rtPullImage rt (runtimeCalls w1) image)
                   ("failed to pull image " +:+ image)
              ++ (check rest w2).1.2),
             (check rest w2).2)
      end)
  /\ (policy = v1_PullAlways ->
      check (image :: rest) w
      = (([],
          wrapped (rtPullImage rt (runtimeCalls w) image) ("failed to pull image " +:+ image)
          ++ (check rest (recordCall w (CallPullImage image))).1.2),
         (check rest (recordCall w (CallPullImage image))).2)
      /\ forall images,
           runtimeCalls (check images w).2 = runtimeCalls w ++ map CallPullImage images)
  /\ (policy <> v1_PullNever -> policy <> v1_PullIfNotPresent -> policy <> v1_PullAlways ->
      (exists e, check (image :: rest) w = (([], [e]), w))
      /\ (versionutil.allBytes isASCII policy = true ->
          check (image :: rest) w
          = (([], [errors_New ("unsupported pull policy " +:+ fmt_q policy)]), w))).
Proof.
  intros check wrapped. subst check wrapped. unfold ImagePullCheck_Check.
  cbn [ipc_runtime imageList imagePullPolicy].
  split; [reflexivity|]. split; [|split; [|split]].
  - intros -> images. apply ImagePullCheck_loop_never.
  - intros ->. cbn [ImagePullCheck_loop]. simpl String.eqb. cbv iota.
    unfold ImageExists, pullCase, PullImage.
    destruct (rtImageExists rt (runtimeCalls w) image) as [[|] [e|]];
      cbn [andb]; cbv iota; try reflexivity;
      rewrite ImagePullCheck_loop_acc, ?appendWrapped_app; cbn [fst snd app];
      rewrite <- ?app_assoc; reflexivity.
  - intros ->. split.
    + cbn [ImagePullCheck_loop]. simpl String.eqb. cbv iota.
      unfold pullCase, PullImage.
      rewrite ImagePullCheck_loop_acc, appendWrapped_app. reflexivity.
    + intros images. apply ImagePullCheck_loop_always_calls.
  - intros H1 H2 H3. cbn [ImagePullCheck_loop].
    apply String.eqb_neq in H1, H2, H3. rewrite H1, H2, H3. cbn [app]. eauto.
Qed.

(** C4 at a policy outside the three known ones and three images. *)
Lemma ImagePullCheck_by_policy_witness :
  ImagePullCheck_Check
    {| ipc_runtime := holdsAFailsB; imageList := ["a"; "b"; "c"];
       imagePullPolicy := "Sometimes" |} sampleWorld
  = (([], [errors_New ("unsupported pull policy " +:+ fmt_q "Sometimes")]), sampleWorld).
Proof.
  refine (proj2 (proj2 (proj2 (proj2 (proj2
            (ImagePullCheck_by_policy holdsAFailsB "Sometimes" "a" ["b"; "c"] sampleWorld))))
            _ _ _) _).
  - discriminate.
  - discriminate.
  - discriminate.
  - reflexivity.
Defined.

(** Example 4 of the specification: policy [IfNotPresent], images "a" and
    "b", "a" present, "b" absent and its pull failing. *)
Example ImagePullCheck_example_4 :
  ImagePullCheck_Check
    {| ipc_runtime := holdsAFailsB; imageList := ["a"; "b"];
       imagePullPolicy := v1_PullIfNotPresent |} sampleWorld
  = (([], [errors_Wrap (errors_New "pull access denied") "failed to pull image b"]),
     {| initsystem_GetInitSystem := initsystem_GetInitSystem sampleWorld;
        os_Open := os_Open sampleWorld;
        net_Listen := net_Listen sampleWorld;
        runtimeCalls := [CallImageExists "a"; CallImageExists "b"; CallPullImage "b"] |}).
Proof. reflexivity. Qed.

(** ** Decimal text of version components *)

Lemma string_of_uint_digits (d : Decimal.uint) :
  versionutil.allBytes isDigit (NilEmpty.string_of_uint d) = true.
Proof. induction d; simpl; auto. Qed.

Lemma to_uint_nonnil (n : N) : N.to_uint n <> Decimal.Nil.
Proof.
  destruct n as [|p]; simpl; [discriminate|]. apply DecimalPos.Unsigned.to_uint_nonnil.
Qed.

Lemma fmt_d_unfold (n : N) : fmt_d n = NilEmpty.string_of_uint (N.to_uint n).
Proof.
  unfold fmt_d, NilZero.string_of_uint.
  pose proof (to_uint_nonnil n) as H. now destruct (N.to_uint n).
Qed.

Lemma fmt_d_digits (n : N) : versionutil.allBytes isDigit (fmt_d n) = true.
Proof. rewrite fmt_d_unfold. apply string_of_uint_digits. Qed.

Lemma fmt_d_nonempty (n : N) : fmt_d n <> EmptyString.
Proof.
  rewrite fmt_d_unfold. pose proof (to_uint_nonnil n) as H.
  destruct (N.to_uint n); simpl; congruence.
Qed.

Lemma nzhead_no_leading_zero (d d' : Decimal.uint) : Decimal.nzhead d <> Decimal.D0 d'.
Proof. induction d; simpl; try discriminate. exact IHd. Qed.

Lemma to_uint_no_leading_zero (n : N) (d : Decimal.uint) :
  N.to_uint n = Decimal.D0 d -> d = Decimal.Nil.
Proof.
  intros H.
  pose proof (DecimalN.Unsigned.to_of (N.to_uint n)) as Hn.
  rewrite DecimalN.Unsigned.of_to, H, unorm_D0 in Hn.
  unfold Decimal.unorm in Hn.
  destruct (Decimal.nzhead d) as [|u|u|u|u|u|u|u|u|u|u] eqn:Hz; try discriminate Hn.
  - now injection Hn.
  - injection Hn as Hn. subst u. exfalso. exact (nzhead_no_leading_zero _ _ Hz).
Qed.

Lemma fmt_d_not_zeroPrefixed (n : N) : versionutil.zeroPrefixed (fmt_d n) = false.
Proof.
  unfold versionutil.zeroPrefixed. rewrite fmt_d_unfold.
  destruct (N.to_uint n) as [|d|d|d|d|d|d|d|d|d|d] eqn:Hn; try reflexivity.
  apply to_uint_no_leading_zero in Hn. subst d. reflexivity.
Qed.

Lemma ParseUint_fmt_d (n : N) :
  (n < versionutil.uintMod)%N -> versionutil.ParseUint (fmt_d n) = Some n.
Proof.
  intros Hlt. unfold versionutil.ParseUint, fmt_d.
  rewrite NilZero.usu by apply to_uint_nonnil.
  rewrite DecimalN.Unsigned.of_to.
  apply N.ltb_lt in Hlt. now rewrite Hlt.
Qed.

Lemma parseComponent_fmt_d (str : string) (n : N) :
  (n < versionutil.uintMod)%N -> versionutil.parseComponent str (fmt_d n) = inl n.
Proof.
  intros Hlt. unfold versionutil.parseComponent.
  rewrite fmt_d_digits, fmt_d_not_zeroPrefixed, ParseUint_fmt_d by exact Hlt.
  destruct (String.eqb_spec (fmt_d n) "") as [He|_]; [|reflexivity].
  now apply fmt_d_nonempty in He.
Qed.

(** ** Cutting and splitting version texts *)

Lemma allBytes_app (p : ascii -> bool) (a b : string) :
  versionutil.allBytes p (a +:+ b) = versionutil.allBytes p a && versionutil.allBytes p b.
Proof.
  induction a as [|c a IH]; [reflexivity|].
  rewrite append_cons. simpl. now rewrite IH, andb_assoc.
Qed.

Lemma allBytes_impl (p q : ascii -> bool) (s : string) :
  (forall c, p c = true -> q c = true) ->
  versionutil.allBytes p s = true -> versionutil.allBytes q s = true.
Proof.
  intros Hpq. induction s as [|c s IH]; simpl; [reflexivity|].
  intros H. apply andb_true_iff in H. destruct H as [Hc Hs].
  now rewrite (Hpq c Hc), IH.
Qed.

(** From [allBytes (notByte sep) (String c s) = true]: the head is not the
    separator, and the tail holds none. *)
Ltac head_not_sep H Hc Hs :=
  apply andb_true_iff in H; destruct H as [Hc Hs];
  unfold notByte in Hc; apply negb_true_iff in Hc.

Lemma cutByte_no_sep (sep : ascii) (s : string) :
  versionutil.allBytes (notByte sep) s = true -> versionutil.cutByte sep s = (s, None).
Proof.
  induction s as [|c s IH]; simpl; [reflexivity|].
  intros H. head_not_sep H Hc Hs. now rewrite Hc, IH.
Qed.

Lemma cutByte_app (sep : ascii) (a b : string) :
  versionutil.allBytes (notByte sep) a = true ->
  versionutil.cutByte sep (a +:+ String sep b) = (a, Some b).
Proof.
  induction a as [|c a IH].
  - intros _. rewrite append_empty_l. simpl. now rewrite Ascii.eqb_refl.
  - rewrite append_cons. simpl. intros H.
    head_not_sep H Hc Hs. now rewrite Hc, IH.
Qed.

Lemma splitByte_no_sep (sep : ascii) (s : string) :
  versionutil.allBytes (notByte sep) s = true -> versionutil.splitByte sep s = [s].
Proof.
  induction s as [|c s IH]; simpl; [reflexivity|].
  intros H. head_not_sep H Hc Hs. now rewrite Hc, IH.
Qed.

Lemma splitByte_app (sep : ascii) (a b : string) :
  versionutil.allBytes (notByte sep) a = true ->
  versionutil.splitByte sep (a +:+ String sep b) = a :: versionutil.splitByte sep b.
Proof.
  induction a as [|c a IH].
  - intros _. rewrite append_empty_l. simpl. now rewrite Ascii.eqb_refl.
  - rewrite append_cons. simpl. intros H.
    head_not_sep H Hc Hs. now rewrite Hc, IH.
Qed.

Lemma digit_notByte (sep c : ascii) :
  isDigit sep = false -> isDigit c = true -> notByte sep c = true.
Proof.
  intros Hs Hc. unfold notByte. apply negb_true_iff.
  destruct (Ascii.eqb_spec c sep) as [->|]; [congruence | reflexivity].
Qed.

Lemma fmt_d_notByte (sep : ascii) (n : N) :
  isDigit sep = false -> versionutil.allBytes (notByte sep) (fmt_d n) = true.
Proof.
  intros Hs. apply (allBytes_impl isDigit); [|apply fmt_d_digits].
  intros c. now apply digit_notByte.
Qed.

Lemma trimLeadingV_fmt_d (n : N) (rest : string) :
  versionutil.trimLeadingV (fmt_d n +:+ rest) = fmt_d n +:+ rest.
Proof.
  pose proof (fmt_d_digits n) as Hd. pose proof (fmt_d_nonempty n) as Hne.
  destruct (fmt_d n) as [|c s]; [contradiction|].
  rewrite append_cons. simpl in Hd. apply andb_true_iff in Hd. destruct Hd as [Hc _].
  unfold versionutil.trimLeadingV.
  destruct (Ascii.eqb_spec c "v") as [->|Hv]; [discriminate|].
  destruct c as [[] [] [] [] [] [] [] []]; try reflexivity. now elim Hv.
Qed.

(** The text [KubernetesVersionCheck.Check] hands to [MustParseSemantic]
    always parses, and to the next minor with pre-release [0]. *)
Lemma firstUnsupportedVersion_parses (kadmVersion : versionutil.Version) :
  (versionutil.Major kadmVersion < versionutil.uintMod)%N ->
  versionutil.ParseSemantic (firstUnsupportedVersionText kadmVersion)
  = inl (firstUnsupportedVersion kadmVersion).
Proof.
  intros HM. unfold firstUnsupportedVersionText, firstUnsupportedVersion.
  set (a := versionutil.Major kadmVersion) in *.
  set (b := ((versionutil.Minor kadmVersion + 1) mod versionutil.uintMod)%N).
  assert (Hb : (b < versionutil.uintMod)%N) by (apply N.mod_lt; discriminate).
  unfold versionutil.ParseSemantic.
  rewrite trimLeadingV_fmt_d.
  rewrite cutByte_no_sep.
  2:{ rewrite !allBytes_app, !fmt_d_notByte by reflexivity. reflexivity. }
  replace (fmt_d a +:+ "." +:+ fmt_d b +:+ "." +:+ "0-0")
    with ((fmt_d a +:+ "." +:+ fmt_d b +:+ "." +:+ "0") +:+ String "-" "0")
    by (rewrite !append_assoc; reflexivity).
  rewrite cutByte_app.
  2:{ rewrite !allBytes_app, !fmt_d_notByte by reflexivity. reflexivity. }
  change (fmt_d a +:+ "." +:+ fmt_d b +:+ "." +:+ "0")
    with (fmt_d a +:+ String "." (fmt_d b +:+ String "." "0")).
  rewrite splitByte_app by (now apply fmt_d_notByte).
  rewrite splitByte_app by (now apply fmt_d_notByte).
  rewrite splitByte_no_sep by reflexivity.
  rewrite !parseComponent_fmt_d by assumption.
  reflexivity.
Qed.

(** ** [KubernetesVersionCheck] *)

Lemma ParseUint_bound (s : string) (n : N) :
  versionutil.ParseUint s = Some n -> (n < versionutil.uintMod)%N.
Proof.
  unfold versionutil.ParseUint.
  destruct (NilZero.uint_of_string s) as [d|]; [|discriminate].
  destruct (N.ltb_spec (N.of_uint d) versionutil.uintMod) as [Hlt|]; [|discriminate].
  now intros [= <-].
Qed.

Lemma parseComponent_bound (str comp : string) (n : N) :
  versionutil.parseComponent str comp = inl n -> (n < versionutil.uintMod)%N.
Proof.
  unfold versionutil.parseComponent.
  destruct (negb _); [discriminate|].
  destruct (versionutil.zeroPrefixed comp); [discriminate|].
  destruct (versionutil.ParseUint comp) as [m|] eqn:Hp; [|discriminate].
  intros [= <-]. now apply ParseUint_bound in Hp.
Qed.

Lemma ParseSemantic_bound (str : string) (v : versionutil.Version) :
  versionutil.ParseSemantic str = inl v ->
  (versionutil.Major v < versionutil.uintMod)%N
  /\ (versionutil.Minor v < versionutil.uintMod)%N
  /\ (versionutil.Patch v < versionutil.uintMod)%N.
Proof.
  unfold versionutil.ParseSemantic.
  destruct (versionutil.cutByte "+" _) as [s1 build].
  destruct (versionutil.cutByte "-" s1) as [numbers pre].
  destruct (versionutil.splitByte "." numbers) as [|c0 [|c1 [|c2 [|c3 l]]]];
    try (destruct (forallb _ _); discriminate); try discriminate.
  destruct (versionutil.parseComponent str c0) as [major|] eqn:H0;
    destruct (versionutil.parseComponent str c1) as [minor|] eqn:H1;
    destruct (versionutil.parseComponent str c2) as [patch|] eqn:H2; try discriminate.
  destruct (match pre with Some p => _ | None => _ end) as [ids|]; [|discriminate].
  destruct (match build with Some b => _ | None => _ end); [|discriminate].
  intros [= <-]. simpl.
  repeat split; eapply parseComponent_bound; eassumption.
Qed.

Lemma comparePreIdents_lowest (ids : list versionutil.PreIdent) :
  versionutil.comparePreIdents ids [versionutil.PreNum 0] <> Lt \/ ids = [].
Proof.
  destruct ids as [|[n|s] l]; [now right | left | left]; simpl.
  - destruct (N.compare_spec n 0) as [->|Hlt|Hgt]; try discriminate.
    + destruct l; discriminate.
    + lia.
  - discriminate.
Qed.

(** A version is at or above [x.(y+1).0-0] exactly when it lies in a later
    minor (or major) than [x.y]: every pre-release of [x.(y+1).0] counts. *)
Lemma AtLeast_firstUnsupportedVersion_iff (kadmVersion k8sVersion : versionutil.Version) :
  (versionutil.Minor kadmVersion + 1 < versionutil.uintMod)%N ->
  versionutil.AtLeast k8sVersion (firstUnsupportedVersion kadmVersion) = true
  <-> (versionutil.Major kadmVersion < versionutil.Major k8sVersion)%N
      \/ (versionutil.Major k8sVersion = versionutil.Major kadmVersion
          /\ (versionutil.Minor kadmVersion < versionutil.Minor k8sVersion)%N).
Proof.
  intros Hov.
  unfold versionutil.AtLeast, versionutil.compareInternal, firstUnsupportedVersion. simpl.
  rewrite (N.mod_small _ _ Hov).
  destruct (N.compare_spec (versionutil.Major k8sVersion) (versionutil.Major kadmVersion))
    as [HM|HM|HM]; [| split; [discriminate | lia] | split; [lia | reflexivity]].
  destruct (N.compare_spec (versionutil.Minor k8sVersion) (versionutil.Minor kadmVersion + 1))
    as [Hm|Hm|Hm]; [| split; [discriminate | lia] | split; [lia | reflexivity]].
  assert (Hgoal : (versionutil.Major kadmVersion < versionutil.Major k8sVersion)%N
                  \/ versionutil.Major k8sVersion = versionutil.Major kadmVersion
                     /\ (versionutil.Minor kadmVersion < versionutil.Minor k8sVersion)%N)
    by (right; lia).
  destruct (N.compare_spec (versionutil.Patch k8sVersion) 0) as [Hp|Hp|Hp];
    [| lia | split; [auto | reflexivity]].
  destruct (versionutil.preRelease k8sVersion) as [|x l] eqn:Hpre; [split; auto|].
  destruct (comparePreIdents_lowest (x :: l)) as [Hc|Hc]; [|discriminate].
  simpl in Hc.
  destruct (match versionutil.comparePreIdent x (versionutil.PreNum 0) with
            | Eq => versionutil.comparePreIdents l []
            | Lt => Lt
            | Gt => Gt
            end);
    [split; auto | contradiction | split; auto].
Qed.

(** C5, as stated, fails at kubeadm v1.20.0 against a cluster at
    v1.21.0-alpha.1: the cluster version has not reached 1.21.0, the
    threshold without pre-release, and the check reports it all the same;
    what it reports is a warning, the errors are empty. *)
Lemma next_minor_prerelease_is_reported :
  versionutil.ParseSemantic (KubeadmVersion kubeadm_1_20_with_alpha_cluster) = inl v1_20_0
  /\ versionutil.ParseSemantic (KubernetesVersion kubeadm_1_20_with_alpha_cluster)
     = inl v1_21_0_alpha_1
  /\ versionutil.AtLeast v1_21_0_alpha_1 (firstUnsupportedVersion_spec v1_20_0) = false
  /\ KubernetesVersionCheck_Check kubeadm_1_20_with_alpha_cluster sampleWorld
     = (([versionSkewWarning v1_20_0 v1_21_0_alpha_1], []), sampleWorld).
Proof. repeat split. Qed.

(** C5, amended.  A kubeadm version with prefix [v0.0.0] passes with no
    finding.  Otherwise a version that does not parse is an error of the
    check; when both parse, the check never returns an error and returns
    one warning exactly when the cluster version is at or above
    major.(minor+1).0-0 of kubeadm, the lowest pre-release of the next
    minor: every patch and pre-release of the current minor (and anything
    older) passes, everything in the next minor or later, pre-releases
    included, is warned about. *)
Theorem KubernetesVersionCheck_warns_from_next_minor
    (kubever : KubernetesVersionCheck) (w : World) :
  (strings_HasPrefix (KubeadmVersion kubever) "v0.0.0" = true ->
   KubernetesVersionCheck_Check kubever w = (([], []), w))
  /\ (strings_HasPrefix (KubeadmVersion kubever) "v0.0.0" = false ->
      (forall err, versionutil.ParseSemantic (KubeadmVersion kubever) = inr err ->
         (KubernetesVersionCheck_Check kubever w).1.1 = []
         /\ length (KubernetesVersionCheck_Check kubever w).1.2 = 1)
      /\ (forall kadmVersion err,
            versionutil.ParseSemantic (KubeadmVersion kubever) = inl kadmVersion ->
            versionutil.ParseSemantic (KubernetesVersion kubever) = inr err ->
            (KubernetesVersionCheck_Check kubever w).1.1 = []
            /\ length (KubernetesVersionCheck_Check kubever w).1.2 = 1)
      /\ (forall kadmVersion k8sVersion,
            versionutil.ParseSemantic (KubeadmVersion kubever) = inl kadmVersion ->
            versionutil.ParseSemantic (KubernetesVersion kubever) = inl k8sVersion ->
            KubernetesVersionCheck_Check kubever w
            = ((if versionutil.AtLeast k8sVersion (firstUnsupportedVersion kadmVersion)
                then [versionSkewWarning kadmVersion k8sVersion] else [],
                []), w)
            /\ ((versionutil.Minor kadmVersion + 1 < versionutil.uintMod)%N ->
                versionutil.AtLeast k8sVersion (firstUnsupportedVersion kadmVersion) = true
                <-> (versionutil.Major kadmVersion < versionutil.Major k8sVersion)%N
                    \/ (versionutil.Major k8sVersion = versionutil.Major kadmVersion
                        /\ (versionutil.Minor kadmVersion
                            < versionutil.Minor k8sVersion)%N)))).
Proof.
  unfold KubernetesVersionCheck_Check. split.
  - now intros ->.
  - intros ->. split; [|split].
    + now intros err ->.
    + now intros kadmVersion err -> ->.
    + intros kadmVersion k8sVersion Hk Hc. rewrite Hk, Hc.
      split; [|apply AtLeast_firstUnsupportedVersion_iff].
      unfold versionutil.MustParseSemantic.
      rewrite firstUnsupportedVersion_parses
        by (apply ParseSemantic_bound in Hk; tauto).
      unfold versionSkewWarning.
      now destruct (versionutil.AtLeast k8sVersion (firstUnsupportedVersion kadmVersion)).
Qed.

(** C5 amended, at kubeadm v1.20.0: a cluster at v1.21.0-alpha.1 is warned
    about. *)
Lemma KubernetesVersionCheck_warns_from_next_minor_witness :
  KubernetesVersionCheck_Check kubeadm_1_20_with_alpha_cluster sampleWorld
  = ((if versionutil.AtLeast v1_21_0_alpha_1 (firstUnsupportedVersion v1_20_0)
      then [versionSkewWarning v1_20_0 v1_21_0_alpha_1] else [],
      []), sampleWorld)
  /\ ((versionutil.Minor v1_20_0 + 1 < versionutil.uintMod)%N ->
      versionutil.AtLeast v1_21_0_alpha_1 (firstUnsupportedVersion v1_20_0) = true
      <-> (versionutil.Major v1_20_0 < versionutil.Major v1_21_0_alpha_1)%N
          \/ (versionutil.Major v1_21_0_alpha_1 = versionutil.Major v1_20_0
              /\ (versionutil.Minor v1_20_0 < versionutil.Minor v1_21_0_alpha_1)%N)).
Proof.
  apply (proj2 (proj2 (proj2
           (KubernetesVersionCheck_warns_from_next_minor
              kubeadm_1_20_with_alpha_cluster sampleWorld) eq_refl))
           v1_20_0 v1_21_0_alpha_1); reflexivity.
Defined.

(** A cluster on a later patch of kubeadm's own minor passes. *)
Example KubernetesVersionCheck_same_minor_passes :
  KubernetesVersionCheck_Check kubeadm_1_20_with_1_20_cluster sampleWorld
  = (([], []), sampleWorld).
Proof. reflexivity. Qed.

(** ** The examples of the specification, evaluated *)

(** Example 1: a check without finding, then a port in use; nothing is
    ignored. *)
Example RunChecks_example_1 :
  RunChecks [checker ipForwardCheck; checker kubeletPortCheck] [] ∅ sampleWorld
  = (Some (mkError (TAB +:+ "[ERROR Port-10250]: Port 10250 is in use" +:+ NL)),
     [], sampleWorld).
Proof. vm_compute. reflexivity. Qed.

(** Example 2: the same run with the lower-cased name of the port check in
    the ignore set. *)
Example RunChecks_example_2 :
  RunChecks [checker ipForwardCheck; checker kubeletPortCheck] [] {[ "port-10250" ]}
    sampleWorld
  = (None, [TAB +:+ "[WARNING Port-10250]: Port 10250 is in use" +:+ NL], sampleWorld).
Proof. vm_compute. reflexivity. Qed.

(** Example 3: three checks with one error each, and ["all"] ignored. *)
Example RunChecks_example_3 :
  RunChecks [checker kubeletPortCheck; checker bridgeNfCheck; checker kubeletActiveCheck]
    [] {[ "all" ]} sampleWorld
  = (None,
     [TAB +:+ "[WARNING Port-10250]: Port 10250 is in use" +:+ NL;
      TAB +:+ "[WARNING FileContent--proc-sys-net-bridge-bridge-nf-call-iptables]: /proc/sys/net/bridge/bridge-nf-call-iptables does not exist" +:+ NL;
      TAB +:+ "[WARNING Service-Kubelet]: kubelet service is not active, please run 'systemctl start kubelet.service'" +:+ NL],
     sampleWorld).
Proof. vm_compute. reflexivity. Qed.

(** An ignore token in upper case does not downgrade: the port check still
    fails the run. *)
Example RunChecks_uppercase_token :
  RunChecks [checker kubeletPortCheck] [] {[ "Port-10250" ]} sampleWorld
  = (Some (mkError (TAB +:+ "[ERROR Port-10250]: Port 10250 is in use" +:+ NL)),
     [], sampleWorld).
Proof. vm_compute. reflexivity. Qed.

(** * Further properties *)

(** ** Runs of [RunChecks] *)

Lemma runReturns_app checks1 checks2 w :
  runReturns (checks1 ++ checks2) w
  = runReturns checks1 w ++ runReturns checks2 (runWorld checks1 w).
Proof.
  revert w. induction checks1 as [|c rest IH]; intros w; simpl; [reflexivity|].
  destruct (cCheck c w) as [r w']. simpl. now rewrite IH.
Qed.

Lemma runWorld_app checks1 checks2 w :
  runWorld (checks1 ++ checks2) w = runWorld checks2 (runWorld checks1 w).
Proof.
  revert w. induction checks1 as [|c rest IH]; intros w; simpl; [reflexivity | apply IH].
Qed.

Lemma setHasItemOrAll_mono (s s' : gset string) (item : string) :
  s ⊆ s' -> setHasItemOrAll s item = true -> setHasItemOrAll s' item = true.
Proof.
  intros Hsub H. apply setHasItemOrAll_true_iff in H. apply setHasItemOrAll_true_iff.
  destruct H as [H|H]; [left | right]; now apply Hsub.
Qed.

(** With ["all"] in the ignore set no run fails: [RunChecks] returns nil
    and every diagnostic of every check, warning or error, is written to
    the sink as a warning line, warnings of a check before its errors. *)
Theorem RunChecks_ignore_all
    (checks : list CheckerV) (ww0 : list string) (ignore : gset string) (w : World) :
  "all" ∈ ignore ->
  RunChecks checks ww0 ignore w
  = (None,
     ww0 ++ flat_map (fun nr => map (warningLine nr.1) (nr.2.1 ++ nr.2.2))
              (runReturns checks w),
     runWorld checks w).
Proof.
  intros Hall. rewrite RunChecks_eq.
  assert (Hs : forall name, setHasItemOrAll ignore name = true).
  { intros name. apply setHasItemOrAll_true_iff. now left. }
  assert (Hw : sinkLines ignore (runReturns checks w)
               = flat_map (fun nr => map (warningLine nr.1) (nr.2.1 ++ nr.2.2))
                   (runReturns checks w)).
  { unfold sinkLines.
    induction (runReturns checks w) as [|nr rs IH]; simpl; [reflexivity|].
    rewrite IH. unfold survivingWarnings, decreaseSeverity. rewrite Hs. reflexivity. }
  assert (Hb : bufferLines ignore (runReturns checks w) = []).
  { apply bufferLines_nil_iff, Forall_forall. intros nr _.
    unfold survivingErrors, decreaseSeverity. now rewrite Hs. }
  now rewrite Hb, Hw.
Qed.

Lemma RunChecks_ignore_all_witness :
  RunChecks [checker kubeletPortCheck; checker bridgeNfCheck] [] {[ "all" ]} sampleWorld
  = (None,
     [] ++ flat_map (fun nr => map (warningLine nr.1) (nr.2.1 ++ nr.2.2))
             (runReturns [checker kubeletPortCheck; checker bridgeNfCheck] sampleWorld),
     runWorld [checker kubeletPortCheck; checker bridgeNfCheck] sampleWorld).
Proof.
  apply (RunChecks_ignore_all [checker kubeletPortCheck; checker bridgeNfCheck] []
           {[ "all" ]} sampleWorld).
  apply elem_of_singleton. reflexivity.
Defined.

(** The environment a run leaves depends neither on the ignore set nor on
    the writer: every check is executed whatever is ignored.  And ignoring
    more never hurts: a run that passes with an ignore set passes with
    every larger one. *)
Theorem RunChecks_ignore_monotone
    (checks : list CheckerV) (ww0 ww0' : list string) (ignore ignore' : gset string)
    (w : World) :
  (RunChecks checks ww0' ignore' w).2 = (RunChecks checks ww0 ignore w).2
  /\ (ignore ⊆ ignore' ->
      (RunChecks checks ww0 ignore w).1.1 = None ->
      (RunChecks checks ww0 ignore' w).1.1 = None).
Proof.
  rewrite !RunChecks_eq. simpl. split; [reflexivity|]. intros Hsub H.
  assert (Hb : bufferLines ignore (runReturns checks w) = [])
    by (destruct (bufferLines ignore (runReturns checks w)); [reflexivity | discriminate]).
  assert (Hb' : bufferLines ignore' (runReturns checks w) = []).
  { apply bufferLines_nil_iff. apply bufferLines_nil_iff in Hb.
    eapply Forall_impl; [exact Hb|]. intros [name [ws es]].
    unfold survivingErrors, decreaseSeverity. simpl.
    destruct (setHasItemOrAll ignore name) eqn:Hi.
    - now rewrite (setHasItemOrAll_mono _ _ _ Hsub Hi).
    - simpl. intros ->. now destruct (setHasItemOrAll ignore' name). }
  now rewrite Hb'.
Qed.

Lemma RunChecks_ignore_monotone_witness :
  (RunChecks [checker kubeletPortCheck] [] {[ "port-10250"; "swap" ]} sampleWorld).1.1 = None.
Proof.
  refine (proj2 (RunChecks_ignore_monotone [checker kubeletPortCheck] [] []
                   {[ "port-10250" ]} {[ "port-10250"; "swap" ]} sampleWorld) _ _).
  - apply union_subseteq_l.
  - vm_compute. reflexivity.
Defined.

(** Running [checks1 ++ checks2] is running [checks1], then [checks2] on
    the writer and in the environment the first run left; the run fails
    when one of the two fails and its message is the two messages put end
    to end. *)
Theorem RunChecks_app
    (checks1 checks2 : list CheckerV) (ww0 : list string) (ignore : gset string)
    (w : World) :
  RunChecks (checks1 ++ checks2) ww0 ignore w
  = let '(e1, ww1, w1) := RunChecks checks1 ww0 ignore w in
    let '(e2, ww2, w2) := RunChecks checks2 ww1 ignore w1 in
    (joinErrors e1 e2, ww2, w2).
Proof.
  rewrite !RunChecks_eq, runReturns_app, runWorld_app.
  unfold bufferLines, sinkLines. rewrite !flat_map_app, joinLines_app, app_assoc.
  fold (bufferLines ignore (runReturns checks1 w)).
  fold (bufferLines ignore (runReturns checks2 (runWorld checks1 w))).
  destruct (bufferLines ignore (runReturns checks1 w)) as [|l1 ls1];
    destruct (bufferLines ignore (runReturns checks2 (runWorld checks1 w))) as [|l2 ls2];
    simpl; rewrite ?app_nil_r, ?append_empty_r; reflexivity.
Qed.

Lemma sinkLines_named ignore rs :
  sinkLines ignore rs
  = map (fun d => TAB +:+ "[WARNING " +:+ d.1 +:+ "]: " +:+ error_Error d.2 +:+ NL)
      (flat_map (fun nr => map (pair nr.1) (survivingWarnings ignore nr)) rs).
Proof.
  unfold sinkLines. induction rs as [|nr rs IH]; simpl; [reflexivity|].
  rewrite IH, map_app, map_map. reflexivity.
Qed.

Lemma bufferLines_named ignore rs :
  bufferLines ignore rs
  = map (fun d => TAB +:+ "[ERROR " +:+ d.1 +:+ "]: " +:+ error_Error d.2 +:+ NL)
      (flat_map (fun nr => map (pair nr.1) (survivingErrors ignore nr)) rs).
Proof.
  unfold bufferLines. induction rs as [|nr rs IH]; simpl; [reflexivity|].
  rewrite IH, map_app, map_map. reflexivity.
Qed.

Lemma surviving_split_perm ignore rs :
  Permutation
    (flat_map (fun nr => map (pair nr.1) (survivingWarnings ignore nr)) rs
     ++ flat_map (fun nr => map (pair nr.1) (survivingErrors ignore nr)) rs)
    (allDiagnostics rs).
Proof.
  unfold allDiagnostics.
  induction rs as [|[name [ws es]] rs IH]; simpl; [constructor|].
  assert (Hd : map (pair name) (survivingWarnings ignore (name, (ws, es)))
               ++ map (pair name) (survivingErrors ignore (name, (ws, es)))
               = map (pair name) (ws ++ es)).
  { unfold survivingWarnings, survivingErrors, decreaseSeverity. simpl.
    destruct (setHasItemOrAll ignore name); simpl;
      rewrite ?app_nil_r, ?map_app; reflexivity. }
  rewrite <- Hd, <- !app_assoc. apply Permutation_app_head.
  etransitivity; [apply Permutation_app_swap_app|].
  apply Permutation_app_head. exact IH.
Qed.

(** No diagnostic is lost or doubled by a run.  The lines added to the sink
    are the [WARNING] lines of some diagnostics, the error buffer (the
    message of the returned error) is made of the [ERROR] lines of others,
    and the two groups together are, up to order, exactly the diagnostics
    the checks returned, each under the name of its check. *)
Theorem RunChecks_keeps_every_diagnostic
    (checks : list CheckerV) (ww0 : list string) (ignore : gset string) (w : World) :
  exists warned failed : list (string * error),
    (RunChecks checks ww0 ignore w).1.2
    = ww0 ++ map (fun d => TAB +:+ "[WARNING " +:+ d.1 +:+ "]: " +:+ error_Error d.2 +:+ NL)
               warned
    /\ errsBuffer (RunChecks_loop checks ignore
                     {| ww := ww0; errsBuffer := EmptyString; world := w |})
       = joinLines
           (map (fun d => TAB +:+ "[ERROR " +:+ d.1 +:+ "]: " +:+ error_Error d.2 +:+ NL)
                failed)
    /\ (RunChecks checks ww0 ignore w).1.1
       = (if failed is [] then None
          else Some (mkError
                 (joinLines
                    (map (fun d => TAB +:+ "[ERROR " +:+ d.1 +:+ "]: "
                                   +:+ error_Error d.2 +:+ NL) failed))))
    /\ Permutation (warned ++ failed) (allDiagnostics (runReturns checks w)).
Proof.
  exists (flat_map (fun nr => map (pair nr.1) (survivingWarnings ignore nr))
            (runReturns checks w)),
         (flat_map (fun nr => map (pair nr.1) (survivingErrors ignore nr))
            (runReturns checks w)).
  rewrite RunChecks_eq, RunChecks_loop_eq. simpl.
  rewrite sinkLines_named, bufferLines_named.
  split; [reflexivity|]. split; [reflexivity|]. split.
  - destruct (flat_map _ (runReturns checks w)); reflexivity.
  - apply surviving_split_perm.
Qed.

(** [RunRootCheckOnly] fails exactly when the privileged-user check returns
    an error and neither ["all"] nor ["isprivilegeduser"] is ignored. *)
Theorem RunRootCheckOnly_fails_iff
    (h : HostProbes) (stderr : list string) (ignore : gset string) (w : World) :
  (RunRootCheckOnly h stderr ignore w).1.1 <> None
  <-> (IsPrivilegedUserCheck_Check h w).1.2 <> []
      /\ ("all" ∉ ignore) /\ ("isprivilegeduser" ∉ ignore).
Proof.
  unfold RunRootCheckOnly. rewrite RunChecks_eq. simpl.
  destruct (IsPrivilegedUserCheck_Check h w) as [[ws es] w'] eqn:Hc. simpl.
  unfold bufferLines, survivingErrors, decreaseSeverity. simpl.
  unfold IsPrivilegedUserCheck_Name.
  pose proof (setHasItemOrAll_true_iff ignore "IsPrivilegedUser") as Hiff.
  change (strings_ToLower "IsPrivilegedUser") with "isprivilegeduser" in Hiff.
  destruct (setHasItemOrAll ignore "IsPrivilegedUser"); simpl.
  - split; [congruence|]. intros (_ & Ha & Hp).
    destruct (proj1 Hiff eq_refl); contradiction.
  - assert (Hn : ("all" ∉ ignore) /\ ("isprivilegeduser" ∉ ignore)).
    { split; intros Hin; assert (false = true) by (apply Hiff; auto); discriminate. }
    rewrite app_nil_r. destruct es as [|e es]; simpl.
    + split; [congruence | intros [H _]; congruence].
    + split; [intros _; split; [discriminate | exact Hn] | discriminate].
Qed.

(** ** Checks that cannot fail a run *)

Lemma RunChecks_single_no_error (c : CheckerV) (ww0 : list string) (ignore : gset string)
    (w : World) :
  (cCheck c w).1.2 = [] -> (RunChecks [c] ww0 ignore w).1.1 = None.
Proof.
  intros H. rewrite RunChecks_eq. simpl.
  destruct (cCheck c w) as [[ws es] w']. simpl in H. subst es.
  unfold bufferLines, survivingErrors, decreaseSeverity. simpl.
  now destruct (setHasItemOrAll ignore (cName c)).
Qed.

(** [FirewalldCheck] never returns an error, in any environment: an active
    firewalld and an undetected init system are warnings.  Run alone it
    cannot make [RunChecks] fail, whatever is ignored; and it warns exactly
    when the init system is not detected or firewalld exists and is
    active. *)
Theorem FirewalldCheck_never_fails
    (fc : FirewalldCheck) (w : World) (ww0 : list string) (ignore : gset string) :
  (FirewalldCheck_Check fc w).1.2 = []
  /\ (FirewalldCheck_Check fc w).2 = w
  /\ (RunChecks [checker fc] ww0 ignore w).1.1 = None
  /\ ((FirewalldCheck_Check fc w).1.1 <> [] <->
      (exists err, initsystem_GetInitSystem w = inr err)
      \/ (exists initSystem, initsystem_GetInitSystem w = inl initSystem
                             /\ ServiceExists initSystem "firewalld" = true
                             /\ ServiceIsActive initSystem "firewalld" = true)).
Proof.
  assert (He : (FirewalldCheck_Check fc w).1.2 = []).
  { unfold FirewalldCheck_Check. destruct (initsystem_GetInitSystem w) as [i|e]; [|reflexivity].
    destruct (ServiceExists i "firewalld"), (ServiceIsActive i "firewalld"); reflexivity. }
  split; [exact He|]. split; [|split].
  - unfold FirewalldCheck_Check. destruct (initsystem_GetInitSystem w) as [i|e]; [|reflexivity].
    destruct (ServiceExists i "firewalld"), (ServiceIsActive i "firewalld"); reflexivity.
  - apply RunChecks_single_no_error. exact He.
  - unfold FirewalldCheck_Check. destruct (initsystem_GetInitSystem w) as [i|e].
    + destruct (ServiceExists i "firewalld") eqn:Hx, (ServiceIsActive i "firewalld") eqn:Ha;
        simpl; split; try congruence.
      * intros _. right. exists i. auto.
      * intros [[err H]|(i' & H & _ & H2)]; [discriminate | congruence].
      * intros [[err H]|(i' & H & H1 & _)]; [discriminate | congruence].
      * intros [[err H]|(i' & H & H1 & _)]; [discriminate | congruence].
    + simpl. split; [intros _; left; eauto | discriminate].
Qed.

(** ** [ServiceCheck] *)

(** [ServiceCheck] returns an error exactly when an init system is
    detected, the service exists, [CheckIfActive] is set and the service is
    not active.  A service that does not exist is a warning only: the check
    then returns the one warning "<service> service does not exist" and no
    error, whatever [CheckIfActive] says.  There is at most one warning and
    one error, and the environment is left as it was. *)
Theorem ServiceCheck_error_iff (sc : ServiceCheck) (w : World) :
  ((ServiceCheck_Check sc w).1.2 <> [] <->
   exists initSystem, initsystem_GetInitSystem w = inl initSystem
                      /\ ServiceExists initSystem (Service sc) = true
                      /\ CheckIfActive sc = true
                      /\ ServiceIsActive initSystem (Service sc) = false)
  /\ (forall initSystem,
        initsystem_GetInitSystem w = inl initSystem ->
        ServiceExists initSystem (Service sc) = false ->
        (ServiceCheck_Check sc w).1
        = ([errors_New (Service sc +:+ " service does not exist")], []))
  /\ length (ServiceCheck_Check sc w).1.1 <= 1
  /\ length (ServiceCheck_Check sc w).1.2 <= 1
  /\ (ServiceCheck_Check sc w).2 = w.
Proof.
  unfold ServiceCheck_Check. destruct (initsystem_GetInitSystem w) as [i|e].
  - destruct (ServiceExists i (Service sc)) eqn:Hx; simpl.
    + destruct (CheckIfActive sc) eqn:Hc, (ServiceIsActive i (Service sc)) eqn:Ha,
        (ServiceIsEnabled i (Service sc)); simpl;
        (split; [split; [try congruence; intros _; exists i; auto
                        | try discriminate;
                          intros (i' & H & _ & H1 & H2); injection H as <-; congruence]
                | split; [intros i' H Hn; injection H as <-; congruence
                         | repeat split; lia]]).
    + split; [|split; [reflexivity | repeat split; lia]].
      split; [congruence|]. intros (i' & H & H1 & _). injection H as <-. congruence.
  - simpl. split; [|split; [intros i' H; discriminate | repeat split; lia]].
    split; [congruence|]. intros (i' & H & _). discriminate.
Qed.

(** On the sample host no service "docker" exists: a warning, no error. *)
Lemma ServiceCheck_error_iff_witness :
  (ServiceCheck_Check {| Service := "docker"; CheckIfActive := true; sc_Label := "" |}
     sampleWorld).1
  = ([errors_New ("docker" +:+ " service does not exist")], []).
Proof.
  refine (proj1 (proj2 (ServiceCheck_error_iff
                          {| Service := "docker"; CheckIfActive := true; sc_Label := "" |}
                          sampleWorld)) systemd _ _); reflexivity.
Defined.

(** ** [PortOpenCheck] *)


(** ** [FileContentCheck], [FileAvailableCheck], [FileExistingCheck],
       [DirAvailableCheck] *)

(** With an empty [Content], [FileContentCheck] reads nothing: it passes
    exactly when the file opens, be it unreadable or not empty. *)
Theorem FileContentCheck_empty_content (fcc : FileContentCheck) (w : World) :
  Content fcc = EmptyString ->
  ((FileContentCheck_Check fcc w).1.2 = [] <->
   exists f, os_Open w (fcc_Path fcc) = inl f).
Proof.
  intros Hc. unfold FileContentCheck_Check, io_Copy_LimitReader, bytes_Equal.
  rewrite Hc. simpl.
  destruct (os_Open w (fcc_Path fcc)) as [f|e]; simpl.
  - destruct (fileData f); simpl; split; eauto.
  - split; [discriminate | intros [f H]; discriminate].
Qed.

Lemma FileContentCheck_empty_content_witness :
  (FileContentCheck_Check
     {| fcc_Path := "/proc/sys/net/ipv4/ip_forward"; Content := ""; fcc_Label := "" |}
     sampleWorld).1.2 = []
  <-> exists f, os_Open sampleWorld "/proc/sys/net/ipv4/ip_forward" = inl f.
Proof.
  apply (FileContentCheck_empty_content
           {| fcc_Path := "/proc/sys/net/ipv4/ip_forward"; Content := ""; fcc_Label := "" |}
           sampleWorld).
  reflexivity.
Defined.

(** For one path in one environment, exactly one of [FileAvailableCheck]
    and [FileExistingCheck] reports an error: the first when [os.Stat]
    succeeds, the second when it fails, for whatever reason. *)
Theorem FileAvailable_FileExisting_exclusive
    (h : HostProbes) (path label1 label2 : string) (w : World) :
  let available := FileAvailableCheck_Check h {| fac_Path := path; fac_Label := label1 |} w in
  let existing := FileExistingCheck_Check h {| fec_Path := path; fec_Label := label2 |} w in
  (available.1.2 = [] <-> existing.1.2 <> [])
  /\ (available.1.2 <> [] <-> os_Stat h w path = None)
  /\ available.1.1 = [] /\ existing.1.1 = []
  /\ length available.1.2 + length existing.1.2 = 1.
Proof.
  unfold FileAvailableCheck_Check, FileExistingCheck_Check. simpl.
  destruct (os_Stat h w path); simpl; repeat split; congruence.
Qed.

(** [DirAvailableCheck] passes exactly when [os.Stat] reports that the path
    does not exist, or the path opens and [Readdirnames(1)] answers
    [io.EOF] at once.  A path that opens and lists a name, or whose listing
    fails with another error, is reported as not empty. *)
Theorem DirAvailableCheck_passes_iff (h : HostProbes) (dac : DirAvailableCheck) (w : World) :
  ((DirAvailableCheck_Check h dac w).1.2 = [] <->
   (exists err, os_Stat h w (dac_Path dac) = Some err /\ os_IsNotExist h err = true)
   \/ (exists f, os_Open w (dac_Path dac) = inl f
                 /\ (Readdirnames h w (dac_Path dac) f 1).2 = readdirEOF))
  /\ (forall f,
        (forall err, os_Stat h w (dac_Path dac) = Some err -> os_IsNotExist h err = false) ->
        os_Open w (dac_Path dac) = inl f ->
        (Readdirnames h w (dac_Path dac) f 1).2 <> readdirEOF ->
        (DirAvailableCheck_Check h dac w).1.2
        = [errors_New (dac_Path dac +:+ " is not empty")])
  /\ (DirAvailableCheck_Check h dac w).1.1 = [].
Proof.
  unfold DirAvailableCheck_Check. split; [|split].
  - destruct (os_Stat h w (dac_Path dac)) as [serr|] eqn:Hs.
    + destruct (os_IsNotExist h serr) eqn:Hn.
      * simpl. split; [intros _; left; eauto | reflexivity].
      * destruct (os_Open w (dac_Path dac)) as [f|e].
        -- destruct (Readdirnames h w (dac_Path dac) f 1).2 eqn:Hr; simpl;
             (split; [try discriminate; intros _; right; eauto
                     | try reflexivity;
                       intros [(err & H1 & H2)|(f' & H1 & H2)]; simplify_eq; congruence]).
        -- simpl. split; [discriminate|].
           intros [(err & H1 & H2)|(f' & H1 & H2)]; simplify_eq; congruence.
    + destruct (os_Open w (dac_Path dac)) as [f|e].
      * destruct (Readdirnames h w (dac_Path dac) f 1).2 eqn:Hr; simpl;
          (split; [try discriminate; intros _; right; eauto
                  | try reflexivity;
                    intros [(err & H1 & H2)|(f' & H1 & H2)]; simplify_eq; congruence]).
      * simpl. split; [discriminate|].
        intros [(err & H1 & H2)|(f' & H1 & H2)]; simplify_eq.
  - intros f Hstat Hopen Hread.
    destruct (os_Stat h w (dac_Path dac)) as [serr|]; [rewrite (Hstat serr eq_refl)|];
      rewrite Hopen; destruct (Readdirnames h w (dac_Path dac) f 1).2;
      try contradiction; reflexivity.
  - destruct (os_Stat h w (dac_Path dac)) as [serr|]; [destruct (os_IsNotExist h serr)|];
      try reflexivity;
      destruct (os_Open w (dac_Path dac)) as [f|e]; try reflexivity;
      destruct (Readdirnames h w (dac_Path dac) f 1).2; reflexivity.
Qed.

(** ** [InPathCheck], [HostnameCheck], [NumCPUCheck] *)

(** A missing executable is an error only for a mandatory [InPathCheck] and
    a warning only for an optional one, so an optional [InPathCheck] run
    alone cannot make [RunChecks] fail; an executable that is found gives
    no finding. *)
Theorem InPathCheck_severity
    (ipc : InPathCheck) (w : World) (ww0 : list string) (ignore : gset string) :
  ((InPathCheck_Check ipc w).1.2 <> [] <->
   (exists err, LookPath (inpath_exec ipc) (executable ipc) = inr err)
   /\ mandatory ipc = true)
  /\ ((InPathCheck_Check ipc w).1.1 <> [] <->
      (exists err, LookPath (inpath_exec ipc) (executable ipc) = inr err)
      /\ mandatory ipc = false)
  /\ (mandatory ipc = false -> (RunChecks [checker ipc] ww0 ignore w).1.1 = None).
Proof.
  assert (Hopt : mandatory ipc = false -> (InPathCheck_Check ipc w).1.2 = []).
  { intros Hm. unfold InPathCheck_Check. rewrite Hm.
    now destruct (LookPath (inpath_exec ipc) (executable ipc)). }
  split; [|split].
  - unfold InPathCheck_Check.
    destruct (LookPath (inpath_exec ipc) (executable ipc)) as [p|e]; simpl.
    + split; [congruence | intros [[err H] _]; discriminate].
    + destruct (mandatory ipc); simpl.
      * split; [eauto | discriminate].
      * split; [congruence | intros [_ H]; discriminate].
  - unfold InPathCheck_Check.
    destruct (LookPath (inpath_exec ipc) (executable ipc)) as [p|e]; simpl.
    + split; [congruence | intros [[err H] _]; discriminate].
    + destruct (mandatory ipc); simpl.
      * split; [congruence | intros [_ H]; discriminate].
      * split; [eauto | discriminate].
  - intros Hm. apply RunChecks_single_no_error. simpl. now apply Hopt.
Qed.

(** [HostnameCheck] never returns an error: a malformed node name, a name
    that does not resolve and a failing lookup are all warnings, one per
    message of [IsQualifiedName] followed by at most two for the lookup.
    Run alone it cannot make [RunChecks] fail. *)
Theorem HostnameCheck_only_warns
    (h : HostProbes) (hc : HostnameCheck) (w : World) (ww0 : list string)
    (ignore : gset string) :
  (HostnameCheck_Check h hc w).1.2 = []
  /\ (RunChecks [checker (M := HostnameCheck_Checker h) hc] ww0 ignore w).1.1 = None
  /\ length (HostnameCheck_Check h hc w).1.1
     = length (validation_IsQualifiedName h (nodeName hc))
       + (if (net_LookupHost h w (nodeName hc)).1 is None then 1 else 0)
       + (if (net_LookupHost h w (nodeName hc)).2 is Some _ then 1 else 0).
Proof.
  assert (He : (HostnameCheck_Check h hc w).1.2 = []).
  { unfold HostnameCheck_Check. now destruct (net_LookupHost h w (nodeName hc)). }
  split; [exact He|]. split.
  - apply RunChecks_single_no_error. exact He.
  - unfold HostnameCheck_Check.
    destruct (net_LookupHost h w (nodeName hc)) as [[addr|] [e|]]; simpl;
      rewrite ?length_app, ?length_map; simpl; lia.
Qed.

(** [NumCPUCheck] is monotone in the requirement: a host that passes for a
    number of CPUs passes for every smaller one, and one that fails keeps
    failing for every larger one. *)
Theorem NumCPUCheck_monotone (h : HostProbes) (n m : Z) (w : World) :
  (m <= n)%Z ->
  ((NumCPUCheck_Check h {| NumCPU := n |} w).1.2 = [] ->
   (NumCPUCheck_Check h {| NumCPU := m |} w).1.2 = [])
  /\ ((NumCPUCheck_Check h {| NumCPU := m |} w).1.2 <> [] ->
      (NumCPUCheck_Check h {| NumCPU := n |} w).1.2 <> []).
Proof.
  intros Hle. unfold NumCPUCheck_Check. simpl.
  destruct (Z.ltb_spec (runtime_NumCPU h w) n), (Z.ltb_spec (runtime_NumCPU h w) m);
    simpl; split; try congruence; lia.
Qed.

Lemma NumCPUCheck_monotone_witness :
  ((NumCPUCheck_Check sampleProbes {| NumCPU := 4 |} sampleWorld).1.2 = [] ->
   (NumCPUCheck_Check sampleProbes {| NumCPU := 2 |} sampleWorld).1.2 = [])
  /\ ((NumCPUCheck_Check sampleProbes {| NumCPU := 2 |} sampleWorld).1.2 <> [] ->
      (NumCPUCheck_Check sampleProbes {| NumCPU := 4 |} sampleWorld).1.2 <> []).
Proof.
  apply (NumCPUCheck_monotone sampleProbes 4 2 sampleWorld). lia.
Defined.

(** ** Names *)

Lemma strings_ReplaceByte_length (s : string) (old new : ascii) :
  String.length (strings_ReplaceByte s old new) = String.length s.
Proof. induction s as [|c s IH]; simpl; [reflexivity | now rewrite IH]. Qed.

Lemma strings_ReplaceByte_get (s : string) (old new : ascii) (i : nat) :
  String.get i (strings_ReplaceByte s old new)
  = (fun c => if Ascii.eqb c old then new else c) <$> String.get i s.
Proof.
  revert i. induction s as [|c s IH]; intros [|i]; simpl; try reflexivity. apply IH.
Qed.

(** Without a label, an [InPathCheck] for an executable and a
    [FileExistingCheck] for a path spelled the same carry the same name:
    "FileExisting-" followed by a text as long as the path that holds a
    dash wherever the path holds a slash and the byte of the path everywhere
    else.  The ignore set therefore treats the two alike. *)
Theorem InPathCheck_shares_FileExisting_name
    (path : string) (isMandatory : bool) (exec : utilsexec_Interface) (hint : string)
    (ignore : gset string) :
  let ipc := {| executable := path; mandatory := isMandatory; inpath_exec := exec;
                inpath_label := ""; suggestion := hint |} in
  let fec := {| fec_Path := path; fec_Label := "" |} in
  InPathCheck_Name ipc = FileExistingCheck_Name fec
  /\ (exists base, InPathCheck_Name ipc = "FileExisting-" +:+ base
                   /\ String.length base = String.length path
                   /\ forall i,
                        String.get i base
                        = match String.get i path with
                          | Some c => Some (if Ascii.eqb c "/" then "-"%char else c)
                          | None => None
                          end)
  /\ setHasItemOrAll ignore (InPathCheck_Name ipc)
     = setHasItemOrAll ignore (FileExistingCheck_Name fec).
Proof.
  simpl. split; [reflexivity|]. split; [|reflexivity].
  exists (strings_ReplaceByte path "/" "-"). split; [reflexivity|].
  split; [apply strings_ReplaceByte_length|].
  intros i. rewrite strings_ReplaceByte_get. now destruct (String.get i path).
Qed.

(** ** [SwapCheck] *)

Lemma scanLines_nil_iff (data : string) : scanLines data = [] <-> data = EmptyString.
Proof.
  destruct data as [|c rest]; simpl; [tauto|].
  destruct (Ascii.eqb c "010"); [split; discriminate|].
  destruct (scanLines rest); split; discriminate.
Qed.

Lemma scanLines_many_iff (data : string) :
  1 < length (scanLines data)
  <-> exists a b, data = a +:+ String "010" b /\ b <> EmptyString.
Proof.
  induction data as [|c rest IH]; simpl.
  - split; [lia|]. intros (a & b & H & _). destruct a; discriminate.
  - destruct (Ascii.eqb_spec c "010") as [->|Hc]; simpl.
    + split.
      * intros Hlen. exists EmptyString, rest. split; [reflexivity|].
        intros ->. simpl in Hlen. lia.
      * intros (a & b & H & Hb).
        assert (Hrest : rest <> EmptyString).
        { destruct a as [|c' a'].
          - rewrite append_empty_l in H. injection H as ->. exact Hb.
          - rewrite append_cons in H. injection H as _ ->.
            destruct a'; [rewrite append_empty_l | rewrite append_cons]; discriminate. }
        destruct (scanLines rest) eqn:Hs; [apply scanLines_nil_iff in Hs; contradiction|].
        simpl. lia.
    + assert (Hlen : 1 < length (match scanLines rest with
                                  | [] => [String c EmptyString]
                                  | line :: lines => String c line :: lines
                                  end)
                     <-> 1 < length (scanLines rest)).
      { destruct (scanLines rest); simpl; lia. }
      rewrite Hlen, IH. split.
      * intros (a & b & -> & Hb). exists (String c a), b. split; [reflexivity | exact Hb].
      * intros (a & b & H & Hb). destruct a as [|c' a'].
        -- rewrite append_empty_l in H. injection H as H _. contradiction.
        -- rewrite append_cons in H. injection H as _ ->. eauto.
Qed.

(** [SwapCheck] passes when [/proc/swaps] cannot be opened.  When the file
    reads without error and has no over-long line, it fails exactly when a
    newline is followed by more text, that is when the file holds a second
    line after the header; a read error always fails it.  It never
    warns. *)
Theorem SwapCheck_second_line (w : World) :
  ((exists e, os_Open w "/proc/swaps" = inr e) ->
   SwapCheck_Check mkSwapCheck w = (([], []), w))
  /\ (forall f,
        os_Open w "/proc/swaps" = inl f ->
        fileReadErr f = None ->
        forallb (fun line => (String.length line <? bufio_MaxScanTokenSize)%nat)
                (scanLines (fileData f)) = true ->
        ((SwapCheck_Check mkSwapCheck w).1.2 <> []
         <-> exists a b, fileData f = a +:+ NL +:+ b /\ b <> EmptyString))
  /\ (forall f e,
        os_Open w "/proc/swaps" = inl f -> fileReadErr f = Some e ->
        (SwapCheck_Check mkSwapCheck w).1.2 <> [])
  /\ (SwapCheck_Check mkSwapCheck w).1.1 = [].
Proof.
  unfold SwapCheck_Check, scanAll. split; [|split; [|split]].
  - intros [e ->]. reflexivity.
  - intros f -> Hr Hshort. rewrite Hshort, Hr. simpl.
    rewrite length_map.
    change (exists a b, fileData f = a +:+ NL +:+ b /\ b <> EmptyString)
      with (exists a b, fileData f = a +:+ String "010" b /\ b <> EmptyString).
    rewrite <- scanLines_many_iff.
    destruct (Nat.ltb_spec 1 (length (scanLines (fileData f)))); simpl;
      split; try congruence; lia.
  - intros f e -> Hr. rewrite Hr.
    destruct (forallb _ (scanLines (fileData f))); simpl; discriminate.
  - destruct (os_Open w "/proc/swaps") as [f|e]; [|reflexivity].
    destruct (forallb _ (scanLines (fileData f))); simpl; [|reflexivity].
    destruct (fileReadErr f); [reflexivity|].
    destruct (1 <? length _); reflexivity.
Qed.

Lemma SwapCheck_second_line_witness :
  (SwapCheck_Check mkSwapCheck swapOnWorld).1.2 <> []
  <-> exists a b,
        "Filename Type Size Used Priority" +:+ NL
        +:+ "/dev/sda2 partition 2097148 0 -2" +:+ NL
        = a +:+ NL +:+ b /\ b <> EmptyString.
Proof.
  apply (proj1 (proj2 (SwapCheck_second_line swapOnWorld))
           {| fileData := "Filename Type Size Used Priority" +:+ NL
                           +:+ "/dev/sda2 partition 2097148 0 -2" +:+ NL;
              fileReadErr := None |}); reflexivity.
Defined.

(** ** [KubeletVersionCheck] *)

(** [KubeletVersionCheck] fails exactly when the kubelet version cannot be
    obtained, or is below the minimum version, or a control-plane version
    is given and either does not parse or has a major below the kubelet
    major or a minor below the kubelet minor.  Major and minor are compared
    separately, so patch and pre-release never matter and a larger kubelet
    minor fails even under a smaller major; without a control-plane version
    only the minimum counts.  The check never warns and returns at most one
    error. *)
Theorem KubeletVersionCheck_skew
    (h : HostProbes) (kubever : KubeletVersionCheck) (w : World) :
  ((KubeletVersionCheck_Check h kubever w).1.2 <> [] <->
   (exists err, GetKubeletVersion h (kv_exec kubever) w = inr err)
   \/ exists kubeletVersion,
        GetKubeletVersion h (kv_exec kubever) w = inl kubeletVersion
        /\ (versionutil.LessThan kubeletVersion (MinimumKubeletVersion h) = true
            \/ (kv_KubernetesVersion kubever <> EmptyString
                /\ ((exists err,
                        versionutil.ParseSemantic (kv_KubernetesVersion kubever) = inr err)
                    \/ exists k8sVersion,
                         versionutil.ParseSemantic (kv_KubernetesVersion kubever)
                         = inl k8sVersion
                         /\ ((versionutil.Major k8sVersion
                               < versionutil.Major kubeletVersion)%N
                             \/ (versionutil.Minor k8sVersion
                                 < versionutil.Minor kubeletVersion)%N)))))
  /\ (KubeletVersionCheck_Check h kubever w).1.1 = []
  /\ length (KubeletVersionCheck_Check h kubever w).1.2 <= 1
  /\ (KubeletVersionCheck_Check h kubever w).2 = w.
Proof.
  unfold KubeletVersionCheck_Check.
  destruct (GetKubeletVersion h (kv_exec kubever) w) as [kl|gerr].
  2:{ simpl. split; [|repeat split; lia].
      split; [intros _; left; eauto | discriminate]. }
  destruct (versionutil.LessThan kl (MinimumKubeletVersion h)) eqn:Hmin.
  { simpl. split; [|repeat split; lia].
    split; [intros _; right; exists kl; auto | discriminate]. }
  destruct (String.eqb_spec (kv_KubernetesVersion kubever) "") as [He|Hne]; simpl.
  { split; [|repeat split; lia]. split; [congruence|].
    intros [[err H]|(kl' & H & [H1|[H1 _]])]; [discriminate | | contradiction].
    injection H as <-. congruence. }
  destruct (versionutil.ParseSemantic (kv_KubernetesVersion kubever)) as [k8s|perr] eqn:Hp.
  2:{ simpl. split; [|repeat split; lia].
      split; [|discriminate]. intros _. right. exists kl. split; [reflexivity|].
      right. split; [exact Hne|]. left. eauto. }
  destruct (N.ltb_spec (versionutil.Major k8s) (versionutil.Major kl)) as [HM|HM];
    destruct (N.ltb_spec (versionutil.Minor k8s) (versionutil.Minor kl)) as [Hm|Hm];
    simpl; (split; [|repeat split; lia]);
    try (split; [|discriminate]; intros _; right; exists kl; split; [reflexivity|];
         right; split; [exact Hne|]; right; exists k8s; split; [reflexivity|];
         first [left; assumption | right; assumption]).
  split; [congruence|].
  intros [[err H]|(kl' & H & [H1|(_ & [[err H1]|(k8s' & H1 & H2)])])];
    [discriminate | injection H as <-; congruence | discriminate |].
  injection H as <-. injection H1 as <-. lia.
Qed.

(** A kubelet at 1.22.3 against a control plane at 2.0.0: the minor 22 is
    above 0, and the check fails. *)
Lemma KubeletVersionCheck_skew_witness :
  (KubeletVersionCheck_Check sampleProbes
     {| kv_KubernetesVersion := "v2.0.0"; kv_exec := kubeletExec |} sampleWorld).1.2 <> [].
Proof.
  apply (proj2 (proj1 (KubeletVersionCheck_skew sampleProbes
                         {| kv_KubernetesVersion := "v2.0.0"; kv_exec := kubeletExec |}
                         sampleWorld))).
  right. exists v1_22_3. split; [reflexivity|]. right. split; [discriminate|].
  right.
  exists {| versionutil.Major := 2; versionutil.Minor := 0; versionutil.Patch := 0;
            versionutil.preRelease := []; versionutil.buildMetadata := EmptyString |}.
  split; [reflexivity|]. right. reflexivity.
Defined.

(** ** [SystemVerificationCheck] *)

(** The findings of [SystemVerificationCheck] are those of its validators
    put end to end, warnings with warnings and errors with errors, in the
    order kernel, docker (only with [IsDocker]), OS and cgroups (only on
    Linux); the report is printed exactly when there is an error. *)
Theorem SystemVerificationCheck_flattens
    (h : HostProbes) (sysver : SystemVerificationCheck) (w : World) :
  let none : list error * list error := ([], []) in
  let linux := String.eqb (runtime_GOOS h) "linux" in
  let k := KernelValidator_Validate h w in
  let d := if IsDocker sysver then DockerValidator_Validate h w else none in
  let o := if linux then OSValidator_Validate h w else none in
  let c := if linux then CgroupsValidator_Validate h w else none in
  SystemVerificationCheck_run h sysver w
  = ((k.1 ++ d.1 ++ o.1 ++ c.1, k.2 ++ d.2 ++ o.2 ++ c.2),
     if k.2 ++ d.2 ++ o.2 ++ c.2 is [] then false else true)
  /\ SystemVerificationCheck_Check h sysver w
     = ((k.1 ++ d.1 ++ o.1 ++ c.1, k.2 ++ d.2 ++ o.2 ++ c.2), w).
Proof.
  intros none linux k d o c.
  assert (Hrun : SystemVerificationCheck_run h sysver w
                 = ((k.1 ++ d.1 ++ o.1 ++ c.1, k.2 ++ d.2 ++ o.2 ++ c.2),
                    if k.2 ++ d.2 ++ o.2 ++ c.2 is [] then false else true)).
  { subst none linux k d o c.
    unfold SystemVerificationCheck_run, SystemVerificationCheck_validators.
    destruct (IsDocker sysver), (String.eqb (runtime_GOOS h) "linux"); simpl;
      destruct (KernelValidator_Validate h w) as [kw ke];
      try destruct (DockerValidator_Validate h w) as [dw de];
      try destruct (OSValidator_Validate h w) as [ow oe];
      try destruct (CgroupsValidator_Validate h w) as [cw ce];
      simpl; rewrite ?app_nil_r, <- ?app_assoc;
      match goal with |- context [length ?l =? 0] => destruct l end; reflexivity. }
  split; [exact Hrun|].
  unfold SystemVerificationCheck_Check. now rewrite Hrun.
Qed.

(** ** More on [ImagePullCheck] and [ContainerRuntimeCheck] *)

Lemma appendWrapped_length (errorList : list error) (err : option error) (msg : string) :
  length errorList <= length (appendWrapped errorList err msg) <= S (length errorList).
Proof. destruct err; simpl; rewrite ?length_app; simpl; lia. Qed.

Lemma ImagePullCheck_loop_bounds rt policy images errorList w :
  (ImagePullCheck_loop rt policy images errorList w).1.1 = []
  /\ length errorList <= length (ImagePullCheck_loop rt policy images errorList w).1.2
  /\ length (ImagePullCheck_loop rt policy images errorList w).1.2
     <= length errorList + 2 * length images
  /\ (policy <> v1_PullIfNotPresent ->
      length (ImagePullCheck_loop rt policy images errorList w).1.2
      <= length errorList + length images).
Proof.
  revert errorList w. induction images as [|image rest IH]; intros errorList w.
  - simpl. repeat split; lia.
  - cbn [ImagePullCheck_loop].
    destruct (String.eqb policy v1_PullNever).
    { destruct (IH errorList w) as (H1 & H2 & H3 & H4).
      repeat split; try assumption; cbn [length]; try lia. intros Hq. specialize (H4 Hq). lia. }
    destruct (String.eqb_spec policy v1_PullIfNotPresent) as [Hp|Hp].
    { unfold ImageExists, pullCase, PullImage.
      destruct (rtImageExists rt (runtimeCalls w) image) as [ret err].
      destruct (ret && (if err is None then true else false)).
      - destruct (IH errorList (recordCall w (CallImageExists image))) as (H1 & H2 & H3 & _).
        repeat split; try assumption; cbn [length]; try lia. intros Hq. contradiction.
      - match goal with
        | |- context [ImagePullCheck_loop rt policy rest ?l ?w'] =>
            destruct (IH l w') as (H1 & H2 & H3 & _);
            pose proof (appendWrapped_length errorList err
                          ("failed to check if image " +:+ image +:+ " exists")) as Ha;
            match l with
            | appendWrapped ?l0 ?e ?m => pose proof (appendWrapped_length l0 e m) as Hb
            end
        end.
        repeat split; try assumption; cbn [length]; try lia. intros Hq. contradiction. }
    destruct (String.eqb policy v1_PullAlways).
    { unfold pullCase, PullImage.
      match goal with
      | |- context [ImagePullCheck_loop rt policy rest ?l ?w'] =>
          destruct (IH l w') as (H1 & H2 & H3 & H4);
          match l with
          | appendWrapped ?l0 ?e ?m => pose proof (appendWrapped_length l0 e m) as Hb
          end
      end.
      repeat split; try assumption; cbn [length]; try lia. intros Hq. specialize (H4 Hq). lia. }
    simpl. rewrite length_app. simpl. repeat split; lia.
Qed.

(** [ImagePullCheck] never warns, and it returns at most two errors per
    image (a failed query and a failed pull) under [PullIfNotPresent] and
    at most one per image under every other policy. *)
Theorem ImagePullCheck_error_count (ipc : ImagePullCheck) (w : World) :
  (ImagePullCheck_Check ipc w).1.1 = []
  /\ length (ImagePullCheck_Check ipc w).1.2 <= 2 * length (imageList ipc)
  /\ (imagePullPolicy ipc <> v1_PullIfNotPresent ->
      length (ImagePullCheck_Check ipc w).1.2 <= length (imageList ipc)).
Proof.
  unfold ImagePullCheck_Check.
  destruct (ImagePullCheck_loop_bounds (ipc_runtime ipc) (imagePullPolicy ipc)
              (imageList ipc) [] w) as (H1 & _ & H3 & H4).
  simpl in *. repeat split; [exact H1 | lia | exact H4].
Qed.

Lemma ImagePullCheck_loop_ifnotpresent_calls rt images errorList w :
  exists added,
    runtimeCalls (ImagePullCheck_loop rt v1_PullIfNotPresent images errorList w).2
    = runtimeCalls w ++ added
    /\ existsQueries added = images
    /\ pulls added ⊆ images
    /\ CallIsRunning ∉ added.
Proof.
  revert errorList w. induction images as [|image rest IH]; intros errorList w.
  - exists []. simpl. rewrite app_nil_r.
    repeat split; [intros x Hx; exact Hx | apply not_elem_of_nil].
  - cbn [ImagePullCheck_loop]. simpl String.eqb. cbv iota.
    unfold ImageExists, pullCase, PullImage.
    destruct (rtImageExists rt (runtimeCalls w) image) as [ret err].
    destruct (ret && (if err is None then true else false)).
    + destruct (IH errorList (recordCall w (CallImageExists image)))
        as (added & Hc & Hq & Hp & Hr).
      exists (CallImageExists image :: added). rewrite Hc. simpl.
      rewrite <- app_assoc. simpl. unfold existsQueries, pulls in *. simpl.
      repeat split.
      * now rewrite Hq.
      * intros x Hx. apply elem_of_cons. right. now apply Hp.
      * apply not_elem_of_cons. split; [discriminate | exact Hr].
    + match goal with
      | |- context [ImagePullCheck_loop rt _ rest ?l ?w'] =>
          destruct (IH l w') as (added & Hc & Hq & Hp & Hr)
      end.
      exists (CallImageExists image :: CallPullImage image :: added). rewrite Hc. simpl.
      rewrite <- !app_assoc. simpl. unfold existsQueries, pulls in *. simpl.
      repeat split.
      * now rewrite Hq.
      * intros x Hx. apply elem_of_cons in Hx. apply elem_of_cons.
        destruct Hx as [->|Hx]; [now left | right; now apply Hp].
      * apply not_elem_of_cons. split; [discriminate|].
        apply not_elem_of_cons. split; [discriminate | exact Hr].
Qed.

(** Under [PullIfNotPresent] the check only adds to the history of the
    runtime: it asks for the existence of every image of its list exactly
    once, in list order, pulls only images of the list, and never asks
    whether the runtime is running. *)
Theorem ImagePullCheck_ifnotpresent_calls (ipc : ImagePullCheck) (w : World) :
  imagePullPolicy ipc = v1_PullIfNotPresent ->
  exists added,
    runtimeCalls (ImagePullCheck_Check ipc w).2 = runtimeCalls w ++ added
    /\ existsQueries added = imageList ipc
    /\ pulls added ⊆ imageList ipc
    /\ CallIsRunning ∉ added.
Proof.
  intros Hp. unfold ImagePullCheck_Check. rewrite Hp.
  apply ImagePullCheck_loop_ifnotpresent_calls.
Qed.

Lemma ImagePullCheck_ifnotpresent_calls_witness :
  exists added,
    runtimeCalls
      (ImagePullCheck_Check
         {| ipc_runtime := holdsAFailsB; imageList := ["a"; "b"];
            imagePullPolicy := v1_PullIfNotPresent |} sampleWorld).2
    = runtimeCalls sampleWorld ++ added
    /\ existsQueries added = ["a"; "b"]
    /\ pulls added ⊆ ["a"; "b"]
    /\ CallIsRunning ∉ added.
Proof.
  apply (ImagePullCheck_ifnotpresent_calls
           {| ipc_runtime := holdsAFailsB; imageList := ["a"; "b"];
              imagePullPolicy := v1_PullIfNotPresent |} sampleWorld).
  reflexivity.
Defined.

Lemma ImagePullCheck_loop_all_present rt images errorList w :
  (forall calls image, rtImageExists rt calls image = (true, None)) ->
  (ImagePullCheck_loop rt v1_PullIfNotPresent images errorList w).1 = ([], errorList)
  /\ runtimeCalls (ImagePullCheck_loop rt v1_PullIfNotPresent images errorList w).2
     = runtimeCalls w ++ map CallImageExists images.
Proof.
  intros Hall. revert w. induction images as [|image rest IH]; intros w.
  - simpl. now rewrite app_nil_r.
  - cbn [ImagePullCheck_loop]. simpl String.eqb. cbv iota.
    unfold ImageExists. rewrite Hall. simpl.
    destruct (IH (recordCall w (CallImageExists image))) as [H1 H2].
    rewrite H1, H2. simpl. now rewrite <- app_assoc.
Qed.

(** When the runtime reports every image present, [PullIfNotPresent] pulls
    nothing and returns no finding, even from a registry that cannot be
    reached: the runtime only receives one existence query per image. *)
Theorem ImagePullCheck_all_present (ipc : ImagePullCheck) (w : World) :
  imagePullPolicy ipc = v1_PullIfNotPresent ->
  (forall calls image, rtImageExists (ipc_runtime ipc) calls image = (true, None)) ->
  (ImagePullCheck_Check ipc w).1 = ([], [])
  /\ runtimeCalls (ImagePullCheck_Check ipc w).2
     = runtimeCalls w ++ map CallImageExists (imageList ipc).
Proof.
  intros Hp Hall. unfold ImagePullCheck_Check. rewrite Hp.
  now apply ImagePullCheck_loop_all_present.
Qed.

Lemma ImagePullCheck_all_present_witness :
  (ImagePullCheck_Check
     {| ipc_runtime := holdsAll; imageList := ["kube-proxy"; "pause"];
        imagePullPolicy := v1_PullIfNotPresent |} sampleWorld).1 = ([], [])
  /\ runtimeCalls
       (ImagePullCheck_Check
          {| ipc_runtime := holdsAll; imageList := ["kube-proxy"; "pause"];
             imagePullPolicy := v1_PullIfNotPresent |} sampleWorld).2
     = runtimeCalls sampleWorld ++ map CallImageExists ["kube-proxy"; "pause"].
Proof.
  apply (ImagePullCheck_all_present
           {| ipc_runtime := holdsAll; imageList := ["kube-proxy"; "pause"];
              imagePullPolicy := v1_PullIfNotPresent |} sampleWorld).
  - reflexivity.
  - intros calls image. reflexivity.
Defined.

(** ** The ignore token of a [ServiceCheck] *)

Lemma toLowerByte_toTitleByte (c : ascii) : toLowerByte (toTitleByte c) = toLowerByte c.
Proof. destruct c as [[] [] [] [] [] [] [] []]; reflexivity. Qed.

Lemma strings_ToLower_Title_from (prev : ascii) (s : string) :
  strings_ToLower (strings_Title_from prev s) = strings_ToLower s.
Proof.
  revert prev. induction s as [|c s IH]; intros prev; simpl; [reflexivity|].
  rewrite IH. destruct (isSeparator prev); [now rewrite toLowerByte_toTitleByte | reflexivity].
Qed.

Lemma strings_ToLower_app (a b : string) :
  strings_ToLower (a +:+ b) = strings_ToLower a +:+ strings_ToLower b.
Proof.
  induction a as [|c a IH]; [reflexivity|].
  rewrite append_cons. simpl. now rewrite IH.
Qed.

(** For a service name in ASCII, the title case that [ServiceCheck.Name]
    gives the service is undone by the matching of the ignore set: an
    unlabelled [ServiceCheck] is downgraded by the token "service-"
    followed by the service name in lower case, and its errors then never
    reach the error buffer. *)
Theorem ServiceCheck_ignore_token (sc : ServiceCheck) (ignore : gset string) :
  versionutil.allBytes isASCII (Service sc) = true ->
  sc_Label sc = EmptyString ->
  "service-" +:+ strings_ToLower (Service sc) ∈ ignore ->
  setHasItemOrAll ignore (ServiceCheck_Name sc) = true
  /\ forall ww0 w, (RunChecks [checker sc] ww0 ignore w).1.1 = None.
Proof.
  intros _ Hl Hin.
  assert (Hs : setHasItemOrAll ignore (ServiceCheck_Name sc) = true).
  { apply setHasItemOrAll_true_iff. right.
    assert (Hn : ServiceCheck_Name sc = "Service-" +:+ strings_Title (Service sc))
      by (unfold ServiceCheck_Name; now rewrite Hl).
    rewrite Hn, strings_ToLower_app. unfold strings_Title.
    rewrite strings_ToLower_Title_from. exact Hin. }
  split; [exact Hs|]. intros ww0 w. rewrite RunChecks_eq. simpl.
  destruct (ServiceCheck_Check sc w) as [[ws es] w']. simpl.
  unfold bufferLines, survivingErrors, decreaseSeverity. simpl. now rewrite Hs.
Qed.

Lemma ServiceCheck_ignore_token_witness :
  setHasItemOrAll {[ "service-kubelet" ]} (ServiceCheck_Name kubeletActiveCheck) = true
  /\ forall ww0 w,
       (RunChecks [checker kubeletActiveCheck] ww0 {[ "service-kubelet" ]} w).1.1 = None.
Proof.
  apply (ServiceCheck_ignore_token kubeletActiveCheck {[ "service-kubelet" ]}).
  - reflexivity.
  - reflexivity.
  - apply elem_of_singleton. reflexivity.
Defined.

(** A directory that does not exist is available. *)
Lemma DirAvailableCheck_passes_iff_witness :
  (DirAvailableCheck_Check sampleProbes
     {| dac_Path := "/var/lib/etcd"; dac_Label := "" |} sampleWorld).1.2 = [].
Proof.
  apply (proj1 (DirAvailableCheck_passes_iff sampleProbes
                  {| dac_Path := "/var/lib/etcd"; dac_Label := "" |} sampleWorld)).
  left. exists noSuchFileError. split; reflexivity.
Defined.

(** An optional executable that is missing does not fail the run. *)
Lemma InPathCheck_severity_witness :
  (RunChecks
     [checker {| executable := "crictl"; mandatory := false; inpath_exec := kubeletExec;
                 inpath_label := ""; suggestion := "" |}] [] ∅ sampleWorld).1.1 = None.
Proof.
  apply (proj2 (proj2 (InPathCheck_severity
                         {| executable := "crictl"; mandatory := false;
                            inpath_exec := kubeletExec; inpath_label := "";
                            suggestion := "" |} sampleWorld [] ∅))).
  reflexivity.
Defined.
